(** * Movie recommendation backend: rating writes and recommendation reads

    A shallow embedding of [backend/models.py] and of the [/rate] and
    [/recommendations] routes of [backend/app.py].

    Conventions of the embedding.
    - A table is the list of its rows in the order the store scans them.
      [first()] is the first matching row of that list and [ORDER BY k]
      is a stable sort of it: rows with equal keys keep their scan order.
      The store scans [movies] in the order of its primary key; where a
      property depends on that, it is the hypothesis [pk_scan_order].
    - Python [float] / SQL [FLOAT] values are rationals, extended with the
      three non-finite values for what [float(...)] can return.  Binary
      rounding of stored values is outside the embedding.
    - Nullable columns are [option]s; SQL puts [NULL] last under [DESC].
    - The builtins [int(...)] and [float(...)] are parameters of the
      routes.
    - A statement run inside [try: ... except Exception] either takes
      effect or raises; which of the two happens is an input ([Env]). *)

From Stdlib Require Import ZArith QArith Qround Qabs Ascii String List Bool Lia.
From Stdlib Require Import Sorted Permutation Lqa Field.
Import ListNotations.

Local Open Scope string_scope.
Local Open Scope Z_scope.

(** ** Schema ([backend/models.py]) *)

Module User.
Record t := mk {
  user_id : Z;
  username : string;
  email : string;
  password_hash : string;
  created_at : Z
}.
End User.

Module Movie.
Record t := mk {
  movie_id : Z;
  title : string;
  genre : option string;
  release_year : option Z;
  avg_rating : option Q;
  ratings_count : option Z;
  poster_path : option string
}.
End Movie.

Module Rating.
Record t := mk {
  rating_id : Z;
  user_id : Z;
  movie_id : Z;
  rating : Q;
  rated_at : Z
}.
End Rating.

Module Recommendation.
(** Modelled from the spec: the [recommendations] table, which
    [backend/models.py] does not declare.  A row is
    (user id, movie id, reason string). *)
Record t := mk {
  user_id : Z;
  movie_id : Z;
  reason : string
}.
End Recommendation.

Module Db.
Record t := mk {
  users : list User.t;
  movies : list Movie.t;
  ratings : list Rating.t;
  recommendations : list Recommendation.t
}.

Definition set_movies (ms : list Movie.t) (db : t) : t :=
  mk (users db) ms (ratings db) (recommendations db).

Definition set_ratings (rs : list Rating.t) (db : t) : t :=
  mk (users db) (movies db) rs (recommendations db).

Definition set_recommendations (cs : list Recommendation.t) (db : t) : t :=
  mk (users db) (movies db) (ratings db) cs.
End Db.

(** ** SQL building blocks *)

Section OrderBy.
Variable A : Type.
Variable leb : A -> A -> bool.

Fixpoint insert_row (x : A) (l : list A) : list A :=
  match l with
  | [] => [x]
  | y :: l' => if leb x y then x :: l else y :: insert_row x l'
  end.

(** [ORDER BY]: rows are inserted from the last to the first, each in
    front of the first row it does not come after. *)
Fixpoint order_by (l : list A) : list A :=
  match l with
  | [] => []
  | x :: l' => insert_row x (order_by l')
  end.
End OrderBy.

Arguments insert_row {A} leb x l.
Arguments order_by {A} leb l.

(** [LIMIT n]: MySQL refuses a negative row count. *)
Definition sql_limit {A : Type} (n : Z) (l : list A) : option (list A) :=
  if n <? 0 then None else Some (firstn (Z.to_nat n) l).

(** Descending order on a nullable [FLOAT] column: [a] may come before
    [b].  [NULL] sorts after every value. *)
Definition float_desc (a b : option Q) : bool :=
  match a, b with
  | _, None => true
  | None, Some _ => false
  | Some x, Some y => Qle_bool y x
  end.

Definition int_desc (a b : option Z) : bool :=
  match a, b with
  | _, None => true
  | None, Some _ => false
  | Some x, Some y => y <=? x
  end.

Definition by_avg_rating_desc (a b : Movie.t) : bool :=
  float_desc (Movie.avg_rating a) (Movie.avg_rating b).

Definition sql_count {A : Type} (l : list A) : Z := Z.of_nat (length l).

Definition sql_sum (l : list Q) : Q := fold_right Qplus 0%Q l.

(** [AVG] over no rows is [NULL]. *)
Definition sql_avg (l : list Q) : option Q :=
  match l with
  | [] => None
  | _ => Some (sql_sum l / inject_Z (sql_count l))%Q
  end.

(** [ROUND(x, 2)] on an approximate value: the nearest multiple of 1/100,
    a tie going to the even one. *)
Definition sql_round2 (x : Q) : Q :=
  let n := (x * 100)%Q in
  let f := Qfloor n in
  let d := (n - inject_Z f)%Q in
  let k := match (d ?= 1 # 2)%Q with
           | Lt => f
           | Gt => f + 1
           | Eq => if Z.even f then f else f + 1
           end in
  Qmake k 100.

Definition coalesce (o : option Q) (d : Q) : Q :=
  match o with Some x => x | None => d end.

(** Lexicographic refinement of an ordering: [c1] decides unless it ties. *)
Definition lex {A : Type} (c1 c2 : A -> A -> bool) (a b : A) : bool :=
  if negb (c1 b a) then true
  else if negb (c1 a b) then false
  else c2 a b.

Definition mem_id (x : Z) (l : list Z) : bool := existsb (Z.eqb x) l.

Definition mem_string (x : string) (l : list string) : bool :=
  existsb (String.eqb x) l.

(** ** Rating Store Accessor *)

(** [Rating.query.filter_by(user_id=..., movie_id=...).first()] *)
Definition getRating (user movie : Z) (db : Db.t) : option Rating.t :=
  find (fun r => (Rating.user_id r =? user) && (Rating.movie_id r =? movie))
       (Db.ratings db).

Definition ratings_of_user (user : Z) (db : Db.t) : list Rating.t :=
  filter (fun r => Rating.user_id r =? user) (Db.ratings db).

(** [SELECT movie_id FROM ratings WHERE user_id = :uid] *)
Definition ratedMovieIds (user : Z) (db : Db.t) : list Z :=
  map Rating.movie_id (ratings_of_user user db).

(** The next [AUTO_INCREMENT] key of [ratings]. *)
Definition next_rating_id (rs : list Rating.t) : Z :=
  1 + fold_right (fun r acc => Z.max (Rating.rating_id r) acc) 0 rs.

(** [r.rating = rating_val], flushed as an [UPDATE] on the primary key. *)
Definition update_rating (r : Rating.t) (v : Q) (db : Db.t) : Db.t :=
  Db.set_ratings
    (map (fun r' =>
            if Rating.rating_id r' =? Rating.rating_id r
            then Rating.mk (Rating.rating_id r') (Rating.user_id r')
                           (Rating.movie_id r') v (Rating.rated_at r')
            else r')
         (Db.ratings db))
    db.

(** [db.session.add(Rating(...))], flushed as an [INSERT].  The two
    [ForeignKey] columns of [Rating] must reference existing rows;
    otherwise the commit raises and nothing is written. *)
Definition insert_rating (user movie : Z) (v : Q) (now : Z) (db : Db.t)
  : option Db.t :=
  if existsb (fun u => User.user_id u =? user) (Db.users db)
     && existsb (fun m => Movie.movie_id m =? movie) (Db.movies db)
  then Some (Db.set_ratings
               (Db.ratings db ++
                [Rating.mk (next_rating_id (Db.ratings db)) user movie v now])
               db)
  else None.

(** Lines 168-175 of the [/rate] view. *)
Definition upsertRating (user movie : Z) (v : Q) (now : Z) (db : Db.t)
  : option Db.t :=
  match getRating user movie db with
  | Some r => Some (update_rating r v db)
  | None => insert_rating user movie v now db
  end.

(** ** Aggregate Recalculator *)

Definition ratings_of_movie (movie : Z) (db : Db.t) : list Rating.t :=
  filter (fun r => Rating.movie_id r =? movie) (Db.ratings db).

(** The [UPDATE movies m SET ... WHERE m.movie_id = :mid] of the view. *)
Definition update_movie_aggregates (mid : Z) (db : Db.t) : Db.t :=
  let rs := ratings_of_movie mid db in
  Db.set_movies
    (map (fun m =>
            if Movie.movie_id m =? mid
            then Movie.mk (Movie.movie_id m) (Movie.title m) (Movie.genre m)
                   (Movie.release_year m)
                   (Some (coalesce
                            (option_map sql_round2
                               (sql_avg (map Rating.rating rs)))
                            0%Q))
                   (Some (sql_count rs))
                   (Movie.poster_path m)
            else m)
         (Db.movies db))
    db.

(** ** Movie Catalog Accessor *)

Definition getMovie (id : Z) (db : Db.t) : option Movie.t :=
  find (fun m => Movie.movie_id m =? id) (Db.movies db).

Definition by_movie_id_asc (a b : Movie.t) : bool :=
  Movie.movie_id a <=? Movie.movie_id b.

Definition by_ratings_count_desc (a b : Movie.t) : bool :=
  int_desc (Movie.ratings_count a) (Movie.ratings_count b).

Definition unseen (excluding : list Z) (m : Movie.t) : bool :=
  negb (mem_id (Movie.movie_id m) excluding).

(** Modelled from the spec: [topRated(excluding, limit)] of the Movie
    Catalog Accessor, which only the stored procedure implements:
    movies outside [excluding], by [avg_rating] descending, ties by
    movie id ascending, the first [limit] of them. *)
Definition topRated (excluding : list Z) (limit : Z) (db : Db.t)
  : list Movie.t :=
  firstn (Z.to_nat limit)
    (order_by (lex by_avg_rating_desc by_movie_id_asc)
       (filter (unseen excluding) (Db.movies db))).

(** ** Recommendation Generator and Store *)

Definition fallback_reason : string := "Top rated fallback".

Definition liked_reason (g : string) : string := "Because you liked " ++ g.

Definition genre_of (movie : Z) (db : Db.t) : list string :=
  match getMovie movie db with
  | Some m => match Movie.genre m with Some g => [g] | None => [] end
  | None => []
  end.

Definition by_rating_desc (a b : Rating.t) : bool :=
  Qle_bool (Rating.rating b) (Rating.rating a).

Definition by_rated_movie_asc (a b : Rating.t) : bool :=
  Rating.movie_id a <=? Rating.movie_id b.

(** Modelled from the spec: step 4 of the Recommendation Generator, the
    genres the user rated at 4.0 or more, or else the genre of the
    user's highest-rated movie (lowest movie id on a tie). *)
Definition liked_genres (user : Z) (db : Db.t) : list string :=
  let history := ratings_of_user user db in
  let liked :=
    flat_map (fun r => genre_of (Rating.movie_id r) db)
             (filter (fun r => Qle_bool 4 (Rating.rating r)) history) in
  match liked with
  | _ :: _ => liked
  | [] =>
      match order_by (lex by_rating_desc by_rated_movie_asc) history with
      | r :: _ => genre_of (Rating.movie_id r) db
      | [] => []
      end
  end.

Definition in_genres (gs : list string) (m : Movie.t) : bool :=
  match Movie.genre m with
  | Some g => mem_string g gs
  | None => false
  end.

Definition genre_reason (m : Movie.t) : string :=
  match Movie.genre m with
  | Some g => liked_reason g
  | None => fallback_reason
  end.

(** Modelled from the spec: steps 1 to 8 of the Recommendation
    Generator, the ranked (movie, reason) pairs for [user]. *)
Definition generate (user limit : Z) (db : Db.t) : list (Movie.t * string) :=
  let rated := ratedMovieIds user db in
  match ratings_of_user user db with
  | [] => map (fun m => (m, fallback_reason)) (topRated rated limit db)
  | _ :: _ =>
      let liked := liked_genres user db in
      let pool :=
        filter (fun m => in_genres liked m && unseen rated m) (Db.movies db) in
      let ranked :=
        order_by
          (lex by_avg_rating_desc (lex by_ratings_count_desc by_movie_id_asc))
          pool in
      let top := firstn (Z.to_nat limit) ranked in
      let chosen := map Movie.movie_id top in
      let fill :=
        if Z.of_nat (length top) <? limit
        then topRated (rated ++ chosen) (limit - Z.of_nat (length top)) db
        else [] in
      map (fun m => (m, genre_reason m)) top
      ++ map (fun m => (m, fallback_reason)) fill
  end.

(** Modelled from the spec: [replaceForUser] of the Recommendation
    Store, delete-then-insert of all rows of [user]. *)
Definition replaceForUser (user : Z) (picks : list (Movie.t * string))
    (rows : list Recommendation.t) : list Recommendation.t :=
  filter (fun c => negb (Recommendation.user_id c =? user)) rows
  ++ map (fun p => Recommendation.mk user (Movie.movie_id (fst p)) (snd p))
         picks.

(** Modelled from the spec: the stored procedure
    [generate_recommendations_for_user_v2(uid, limit)], which the views
    call and whose SQL is not part of the Python sources: sections 4.4
    (steps 1 to 9) and 4.5 of the specification. *)
Definition generate_recommendations_for_user_v2 (uid limit : Z) (db : Db.t)
  : Db.t :=
  Db.set_recommendations
    (replaceForUser uid (generate uid limit db) (Db.recommendations db))
    db.

(** ** Views ([backend/app.py]) *)

Inductive pyfloat : Type :=
| Finite (q : Q)
| PosInf
| NegInf
| NaN.

(** [0 <= rating_val <= 5] *)
Definition in_range (v : pyfloat) : option Q :=
  match v with
  | Finite q => if Qle_bool 0 q && Qle_bool q 5 then Some q else None
  | _ => None
  end.

(** What the run of a request does not decide by itself: the clock, and
    whether the statements guarded by [try] raise. *)
Record Env := mkEnv {
  now : Z;
  aggregate_fails : bool;
  proc_fails : bool
}.

(** One row of the page's [recs]. *)
Record rec := mkRec {
  rec_user_id : Z;
  rec_movie_id : Z;
  rec_title : string;
  rec_genre : option string;
  rec_avg_rating : option Q;
  rec_poster_path : option string;
  rec_reason : string
}.

Inductive response : Type :=
| JsonError (status : Z) (error : string)
| JsonOk
| Redirect (endpoint flashed : string)
| Render (template : string) (recs : list rec)
| Unhandled (exception : string).

(** [not s] on a form field. *)
Definition falsy (s : option string) : bool :=
  match s with
  | None => true
  | Some s => String.eqb s ""
  end.

(** [float(m.avg_rating or 0)] *)
Definition avg_or_zero (a : option Q) : Q :=
  match a with
  | None => 0%Q
  | Some q => if Qeq_bool q 0 then 0%Q else q
  end.

(** The [SELECT ... FROM recommendations r JOIN movies m ...] of the
    view, before [ORDER BY]. *)
Definition join_movies (uid : Z) (db : Db.t)
  : list (Recommendation.t * Movie.t) :=
  filter (fun p => Recommendation.user_id (fst p) =? uid)
    (flat_map
       (fun r =>
          map (pair r)
              (filter (fun m => Recommendation.movie_id r =? Movie.movie_id m)
                      (Db.movies db)))
       (Db.recommendations db)).

Definition row_rec (p : Recommendation.t * Movie.t) : rec :=
  let (r, m) := p in
  mkRec (Recommendation.user_id r) (Movie.movie_id m) (Movie.title m)
        (Movie.genre m) (Movie.avg_rating m) (Movie.poster_path m)
        (Recommendation.reason r).

Definition select_recommendations (uid : Z) (db : Db.t) : list rec :=
  map row_rec
      (order_by (fun a b => by_avg_rating_desc (snd a) (snd b))
                (join_movies uid db)).

(** Lines 231-238: the query of the [except] branch. *)
Definition movies_fallback (user_id limit : Z) (db : Db.t)
  : option (list Movie.t) :=
  sql_limit limit
    (order_by by_avg_rating_desc
       (filter (unseen (ratedMovieIds user_id db)) (Db.movies db))).

Definition fallback_rec (user_id : Z) (m : Movie.t) : rec :=
  mkRec user_id (Movie.movie_id m) (Movie.title m) (Movie.genre m)
        (Some (avg_or_zero (Movie.avg_rating m))) (Movie.poster_path m)
        fallback_reason.

Section Views.
Variable py_int : string -> option Z.
Variable py_float : string -> option pyfloat.

(** The body of [/rate] after both fields parsed and the range check
    passed: the write, then the two guarded statements. *)
Definition rate_write (env : Env) (user_id movie_id_int : Z) (rating_val : Q)
    (db : Db.t) : response * Db.t :=
  match upsertRating user_id movie_id_int rating_val (now env) db with
  | None => (Unhandled "IntegrityError", db)
  | Some db1 =>
      let db2 :=
        if aggregate_fails env then db1
        else update_movie_aggregates movie_id_int db1 in
      let db3 :=
        if proc_fails env then db2
        else generate_recommendations_for_user_v2 user_id 15 db2 in
      (JsonOk, db3)
  end.

(** [POST /rate] *)
Definition rate (env : Env) (session : option Z)
    (movie_id rating_val : option string) (db : Db.t) : response * Db.t :=
  match session with
  | None => (JsonError 401 "not authenticated", db)
  | Some user_id =>
      if falsy movie_id || falsy rating_val
      then (JsonError 400 "missing fields", db)
      else
        match movie_id, rating_val with
        | Some movie_id, Some rating_val =>
            match py_int movie_id, py_float rating_val with
            | Some movie_id_int, Some rating_val =>
                match in_range rating_val with
                | None => (JsonError 400 "rating out of range", db)
                | Some q => rate_write env user_id movie_id_int q db
                end
            | _, _ => (JsonError 400 "invalid rating or movie id", db)
            end
        | _, _ => (JsonError 400 "missing fields", db)
        end
  end.

(** [GET /recommendations] *)
Definition recommendations (env : Env) (session : option Z)
    (limit : option string) (db : Db.t) : response * Db.t :=
  match session with
  | None => (Redirect "login" "Login to see recommendations", db)
  | Some user_id =>
      match (match limit with None => Some 20 | Some s => py_int s end) with
      | None => (Unhandled "ValueError", db)
      | Some limit =>
          if proc_fails env
          then
            match movies_fallback user_id limit db with
            | None => (Unhandled "ProgrammingError", db)
            | Some ms =>
                (Render "recommendations.html" (map (fallback_rec user_id) ms),
                 db)
            end
          else
            let db' := generate_recommendations_for_user_v2 user_id limit db in
            (Render "recommendations.html" (select_recommendations user_id db'),
             db')
      end
  end.

(** A run of [POST /rate] requests of one user for one movie id, each
    with its own environment and rating field. *)
Fixpoint rate_each (reqs : list (Env * string)) (user : Z) (movie_id : string)
    (db : Db.t) : list response * Db.t :=
  match reqs with
  | [] => ([], db)
  | (env, rating_val) :: reqs' =>
      let (resp, db1) :=
        rate env (Some user) (Some movie_id) (Some rating_val) db in
      let (resps, db2) := rate_each reqs' user movie_id db1 in
      (resp :: resps, db2)
  end.

End Views.

(** ** The other views ([backend/app.py])

    SQL compares strings under the collation of the column.  The views
    that compare strings in a query ([WHERE genre = ...], [DISTINCT],
    [username = ... OR email = ...], the [unique] columns of [User])
    take the comparison as a parameter [collate]. *)

(** [GET /custom_recommendations]: the stored rows of the session user,
    read without regenerating them. *)
Definition custom_recommendations (session : option Z) (db : Db.t)
  : response * Db.t :=
  match session with
  | None => (Redirect "login" "Login to access custom recommendations", db)
  | Some user_id =>
      (Render "custom_recomm.html" (select_recommendations user_id db), db)
  end.

(** The body of [GET /api/movie/<int:movie_id>]. *)
Record movie_json := mkMovieJson {
  json_movie_id : Z;
  json_title : string;
  json_genre : option string;
  json_avg_rating : Q;
  json_ratings_count : option Z;
  json_poster_path : option string
}.

Inductive api_response : Type :=
| ApiError (status : Z) (error : string)
| ApiMovie (body : movie_json).

(** [GET /api/movie/<int:movie_id>] *)
Definition api_movie (movie_id : Z) (db : Db.t) : api_response :=
  match getMovie movie_id db with
  | None => ApiError 404 "not found"
  | Some m =>
      ApiMovie (mkMovieJson (Movie.movie_id m) (Movie.title m) (Movie.genre m)
                  (avg_or_zero (Movie.avg_rating m)) (Movie.ratings_count m)
                  (Movie.poster_path m))
  end.

(** [SELECT DISTINCT]: one row of each group of equal rows.  Which row
    of a group is returned, and in which order the groups come, is the
    store's choice; the properties below speak of membership only. *)
Fixpoint distinct {A : Type} (same : A -> A -> bool) (l : list A) : list A :=
  match l with
  | [] => []
  | x :: l' =>
      if existsb (same x) l' then distinct same l' else x :: distinct same l'
  end.

(** [... for g in ... if g[0]]: the genres that are neither [NULL] nor
    empty. *)
Definition truthy_genres (gs : list (option string)) : list string :=
  flat_map (fun g => match g with
                     | Some s => if String.eqb s "" then [] else [s]
                     | None => []
                     end) gs.

(** What the catalog pages hand to their templates. *)
Inductive catalog_page : Type :=
| IndexPage (movies : list Movie.t) (genres : list string)
| MoviesPage (movies : list Movie.t) (genres : list string)
             (selected_genre : option string).

Definition page_movies (p : catalog_page) : list Movie.t :=
  match p with
  | IndexPage ms _ => ms
  | MoviesPage ms _ _ => ms
  end.

Definition page_genres (p : catalog_page) : list string :=
  match p with
  | IndexPage _ gs => gs
  | MoviesPage _ gs _ => gs
  end.

(** The session cookie: the two keys the views set, and the flashed
    (message, category) pairs. *)
Record Session := mkSession {
  session_user_id : option Z;
  session_username : option string;
  flashes : list (string * string)
}.

Definition flash (message category : string) (s : Session) : Session :=
  mkSession (session_user_id s) (session_username s)
            (flashes s ++ [(message, category)]).

(** [session.clear()] *)
Definition session_clear : Session := mkSession None None [].

Inductive method : Type := GET | POST.

Inductive auth_page : Type :=
| RedirectTo (endpoint : string)
| Template (name : string)
| Crash (exception : string).

(** What a statement inside [try] did: raised, or returned a value. *)
Inductive attempt (A : Type) : Type :=
| Raised
| Returned (a : A).

Arguments Raised {A}.
Arguments Returned {A} a.

(** What a commit did: the store refused it with an exception, or it
    went through. *)
Inductive commit (A : Type) : Type :=
| Refused (exception : string)
| Committed (a : A).

Arguments Refused {A} exception.
Arguments Committed {A} a.

(** [GET /logout] *)
Definition logout (s : Session) : auth_page * Session :=
  (RedirectTo "home", flash "Logged out" "info" session_clear).

Definition next_user_id (us : list User.t) : Z :=
  1 + fold_right (fun u acc => Z.max (User.user_id u) acc) 0 us.

Section StringViews.
Variable collate : string -> string -> bool.

Definition same_genre (a b : option string) : bool :=
  match a, b with
  | None, None => true
  | Some x, Some y => collate x y
  | _, _ => false
  end.

(** [[g[0] for g in db.session.query(Movie.genre).distinct().all()
    if g[0]]] *)
Definition genres (db : Db.t) : list string :=
  truthy_genres (distinct same_genre (map Movie.genre (Db.movies db))).

(** [GET /] *)
Definition home (db : Db.t) : catalog_page :=
  IndexPage (firstn 12 (order_by by_avg_rating_desc (Db.movies db)))
            (genres db).

(** [WHERE genre = :genre] *)
Definition has_genre (genre : string) (m : Movie.t) : bool :=
  match Movie.genre m with
  | Some g => collate g genre
  | None => false
  end.

(** [GET /movies] *)
Definition movies (genre : option string) (db : Db.t) : catalog_page :=
  let q :=
    match genre with
    | Some g => if String.eqb g "" then Db.movies db
                else filter (has_genre g) (Db.movies db)
    | None => Db.movies db
    end in
  MoviesPage (order_by by_avg_rating_desc q) (genres db) genre.

(** [(User.username == name) | (User.email == name)] *)
Definition named (name : string) (u : User.t) : bool :=
  collate (User.username u) name || collate (User.email u) name.

(** [(User.username == username) | (User.email == email)]: also what
    the two [unique] columns of [User] refuse on insert. *)
Definition taken (username email : string) (u : User.t) : bool :=
  collate (User.username u) username || collate (User.email u) email.

(** A value fits a [String(n)] column when it has at most [n]
    characters (a character of the embedding is one [ascii]). *)
Definition fits (n : nat) (v : string) : bool :=
  Nat.leb (String.length v) n.

(** [db.session.add(User(...)); db.session.commit()].  The store
    refuses a value longer than its column ([String(50)], [String(100)]
    and [String(255)] in [User]) and a username or an email that is
    taken. *)
Definition insert_user (username email pwd_hash : string) (now : Z)
    (db : Db.t) : commit Db.t :=
  if negb (fits 50 username && fits 100 email && fits 255 pwd_hash)
  then Refused "DataError"
  else if existsb (taken username email) (Db.users db)
  then Refused "IntegrityError"
  else Committed
         (Db.mk (Db.users db ++
                 [User.mk (next_user_id (Db.users db)) username email
                          pwd_hash now])
                (Db.movies db) (Db.ratings db) (Db.recommendations db)).

Variable generate_password_hash : string -> string -> string.
Variable check_password_hash : string -> string -> bool.

(** The part of [/login] shared by the two branches: the row found, if
    any, against the password. *)
Definition sign_in (row : option User.t) (password : string) (s : Session)
  : auth_page * Session :=
  match row with
  | Some u =>
      if check_password_hash (User.password_hash u) password
      then (RedirectTo "home",
            flash ("Welcome back, " ++ User.username u ++ "!") "success"
                  (mkSession (Some (User.user_id u)) (Some (User.username u))
                             (flashes s)))
      else (RedirectTo "login", flash "Invalid credentials" "danger" s)
  | None => (RedirectTo "login", flash "Invalid credentials" "danger" s)
  end.

(** [/login].  [proc] is what the [try] block got from
    [sp_get_user_by_name_or_email]: it raised, or it returned the first
    row of its result, if any. *)
Definition login (m : method) (name password : option string)
    (proc : attempt (option User.t)) (s : Session) (db : Db.t)
  : auth_page * Session :=
  match m with
  | GET => (Template "login.html", s)
  | POST =>
      match name, password with
      | Some name', Some password' =>
          if falsy name || falsy password
          then (RedirectTo "login", flash "Please fill all fields" "danger" s)
          else
            match proc with
            | Returned row => sign_in row password' s
            | Raised =>
                sign_in (find (named name') (Db.users db)) password' s
            end
      | _, _ => (RedirectTo "login", flash "Please fill all fields" "danger" s)
      end
  end.

(** [/register].  [salt] is the salt [generate_password_hash] draws;
    [proc] is what the [try] block got from [sp_register_user]: it
    raised, or it returned [@out_err] and left the store as given. *)
Definition register (m : method) (username email password : option string)
    (salt : string) (now : Z) (proc : attempt (option string * Db.t))
    (s : Session) (db : Db.t) : auth_page * Session * Db.t :=
  match m with
  | GET => (Template "register.html", s, db)
  | POST =>
      match username, email, password with
      | Some username', Some email', Some password' =>
          if falsy username || falsy email || falsy password
          then (RedirectTo "register",
                flash "Please fill all fields" "danger" s, db)
          else
            let pwd_hash := generate_password_hash salt password' in
            match proc with
            | Returned (None, db') =>
                (RedirectTo "login",
                 flash "Registered! Please login." "success" s, db')
            | Returned (Some errmsg, db') =>
                (Template "register.html",
                 flash (if String.eqb errmsg "username_exists"
                        then "Username already exists"
                        else if String.eqb errmsg "email_exists"
                        then "Email already exists"
                        else "Registration failed: " ++ errmsg)
                       "danger" s,
                 db')
            | Raised =>
                match find (taken username' email') (Db.users db) with
                | Some _ =>
                    (RedirectTo "register",
                     flash "User already exists" "danger" s, db)
                | None =>
                    match insert_user username' email' pwd_hash now db with
                    | Refused exception => (Crash exception, s, db)
                    | Committed db' =>
                        (RedirectTo "login",
                         flash "Registered (fallback). Please login." "success"
                               s,
                         db')
                    end
                end
            end
      | _, _, _ =>
          (RedirectTo "register", flash "Please fill all fields" "danger" s, db)
      end
  end.

End StringViews.

(** ** Configuration ([backend/config.py]) *)

Module Config.
Record t := mk {
  SECRET_KEY : string;
  DB_USER : string;
  DB_PASSWORD : string;
  DB_HOST : string;
  DB_PORT : string;
  DB_NAME : string;
  SQLALCHEMY_DATABASE_URI : string;
  SQLALCHEMY_TRACK_MODIFICATIONS : bool
}.
End Config.

(** [os.getenv(name, default)] on the environment as [load_dotenv] left
    it. *)
Definition getenv (environ : string -> option string) (name : string)
    (default : option string) : option string :=
  match environ name with
  | Some v => Some v
  | None => default
  end.

(** The body of [class Config]; [None] is its [ValueError]. *)
Definition load_config (environ : string -> option string)
  : option Config.t :=
  let secret := getenv environ "SECRET_KEY" (Some "fallback_key") in
  let user := getenv environ "DB_USER" None in
  let password := getenv environ "DB_PASSWORD" None in
  let host := getenv environ "DB_HOST" (Some "localhost") in
  let port := getenv environ "DB_PORT" (Some "3306") in
  let name := getenv environ "DB_NAME" None in
  if forallb (fun v => negb (falsy v)) [user; password; host; port; name]
  then
    match secret, user, password, host, port, name with
    | Some k, Some u, Some p, Some h, Some o, Some n =>
        Some (Config.mk k u p h o n
                ("mysql+pymysql://" ++ u ++ ":" ++ p ++ "@" ++ h ++ ":" ++ o
                 ++ "/" ++ n)
                false)
    | _, _, _, _, _, _ => None
    end
  else None.

(** ** Decimal literals

    The decimal fragment of [int(...)] and [float(...)]: an optional
    minus sign, digits, and for [float] an optional fraction or one of
    the words [inf] and [nan].  Surrounding blanks, exponents,
    underscores and the rounding of long fractions to a double, which
    the builtins also handle, are not read.  The views are run on
    concrete requests with these two readers, at inputs on which they
    agree with the builtins. *)

Fixpoint digits (s : string) (acc : Z) : option Z :=
  match s with
  | EmptyString => Some acc
  | String c s' =>
      let d := Z.of_nat (Ascii.nat_of_ascii c) - 48 in
      if (0 <=? d) && (d <=? 9) then digits s' (10 * acc + d) else None
  end.

Definition natural (s : string) : option Z :=
  match s with
  | EmptyString => None
  | _ => digits s 0
  end.

Definition int_literal (s : string) : option Z :=
  match s with
  | String "-"%char s' => option_map Z.opp (natural s')
  | _ => natural s
  end.

Fixpoint split_dot (s : string) : string * option string :=
  match s with
  | EmptyString => (EmptyString, None)
  | String "."%char s' => (EmptyString, Some s')
  | String c s' => let (a, b) := split_dot s' in (String c a, b)
  end.

Definition unsigned_float (s : string) : option Q :=
  match split_dot s with
  | (i, None) => option_map inject_Z (natural i)
  | (i, Some f) =>
      match natural i, natural f with
      | Some a, Some b =>
          let scale := 10 ^ Z.of_nat (String.length f) in
          Some (Qred (Qmake (a * scale + b) (Z.to_pos scale)))
      | _, _ => None
      end
  end.

Definition float_literal (s : string) : option pyfloat :=
  if String.eqb s "nan" then Some NaN
  else if String.eqb s "inf" then Some PosInf
  else if String.eqb s "-inf" then Some NegInf
  else
    match s with
    | String "-"%char s' => option_map (fun q => Finite (- q)) (unsigned_float s')
    | _ => option_map Finite (unsigned_float s)
    end.

(** ** Vocabulary of the properties *)

(** [a] may come before [b] under the ordering [leb]. *)
Definition in_order {A : Type} (leb : A -> A -> bool) (a b : A) : Prop :=
  leb a b = true.

(** The [movies] table is scanned in the order of its primary key. *)
Definition pk_scan_order (db : Db.t) : Prop :=
  StronglySorted Z.lt (map Movie.movie_id (Db.movies db)).

(** A list of movies by [avg_rating] descending, ties by ascending
    movie id: each movie may come before every later one, and where the
    later one may as well come before it, its id is the smaller. *)
Definition top_rated_order (ms : list Movie.t) : Prop :=
  StronglySorted
    (fun a b => by_avg_rating_desc a b = true /\
                (by_avg_rating_desc b a = true ->
                 Movie.movie_id a <= Movie.movie_id b))
    ms.

Definition user_exists (user : Z) (db : Db.t) : Prop :=
  In user (map User.user_id (Db.users db)).

Definition movie_exists (movie : Z) (db : Db.t) : Prop :=
  In movie (map Movie.movie_id (Db.movies db)).

(** The write of a rating for the pair can go through: the pair has a
    row to update, or both foreign keys of a new row have their row. *)
Definition writable (user movie : Z) (db : Db.t) : Prop :=
  getRating user movie db <> None \/
  (user_exists user db /\ movie_exists movie db).

Definition is_pair (user movie : Z) (r : Rating.t) : bool :=
  (Rating.user_id r =? user) && (Rating.movie_id r =? movie).

(** The rows of [ratings] held for one (user, movie) pair. *)
Definition rows_of_pair (user movie : Z) (db : Db.t) : list Rating.t :=
  filter (is_pair user movie) (Db.ratings db).

(** A parsed value the range check refuses. *)
Definition out_of_range (v : pyfloat) : Prop :=
  match v with
  | Finite q => ~ (0 <= q /\ q <= 5)%Q
  | _ => True
  end.

(** A rating field that parses to a value the range check accepts. *)
Definition in_range_field (py_float : string -> option pyfloat)
    (rating_val : string) : Prop :=
  exists q, py_float rating_val = Some (Finite q) /\ (0 <= q /\ q <= 5)%Q.

(** What the [UPDATE] stores for a movie, from the [ratings] rows that
    reference it. *)
Definition recomputed_count (mid : Z) (db : Db.t) : Z :=
  sql_count (ratings_of_movie mid db).

Definition recomputed_avg (mid : Z) (db : Db.t) : Q :=
  match sql_avg (map Rating.rating (ratings_of_movie mid db)) with
  | Some mean => sql_round2 mean
  | None => 0%Q
  end.

Definition aggregates_current (mid : Z) (db : Db.t) : Prop :=
  forall m, In m (Db.movies db) -> Movie.movie_id m = mid ->
    Movie.ratings_count m = Some (recomputed_count mid db) /\
    Movie.avg_rating m = Some (recomputed_avg mid db).

(** The [recs] a response hands to the template. *)
Definition rendered (resp : response) : list rec :=
  match resp with
  | Render _ recs => recs
  | _ => []
  end.

(** The row stored for a fallback pick, next to its movie. *)
Definition fallback_row (user : Z) (m : Movie.t)
  : Recommendation.t * Movie.t :=
  (Recommendation.mk user (Movie.movie_id m) fallback_reason, m).

(** [readForUser]: the stored rows of a user. *)
Definition rows_of_user (user : Z) (db : Db.t) : list Recommendation.t :=
  filter (fun c => Recommendation.user_id c =? user) (Db.recommendations db).

(** ** Concrete stores and requests *)

Module Run.

Definition alice : User.t :=
  User.mk 1 "alice" "alice@example.org" "pbkdf2:sha256" 0.

Definition film (id : Z) (genre : string) (avg : Q) (count : Z) : Movie.t :=
  Movie.mk id "film" (Some genre) None (Some avg) (Some count) None.

Definition calm : Env := mkEnv 0 false false.
Definition aggregate_down : Env := mkEnv 0 true false.
Definition proc_down : Env := mkEnv 0 false true.
Definition both_down : Env := mkEnv 0 true true.

(** One user, one unrated movie. *)
Definition fresh : Db.t := Db.mk [alice] [film 7 "Drama" 0 0] [] [].

(** [fresh] after alice's rating 4.5 of movie 7 was written. *)
Definition written : Db.t :=
  Db.mk [alice] [film 7 "Drama" 0 0] [Rating.mk 1 1 7 (9 # 2) 0] [].

(** Two equally rated movies and a third, in primary-key order. *)
Definition tied : Db.t :=
  Db.mk [alice] [film 1 "Drama" 4 1; film 2 "Drama" 4 1; film 3 "Drama" 3 1]
        [] [].

(** Seventeen dramas, ids 1 to 17. *)
Definition seventeen : Db.t :=
  Db.mk [alice]
        (map (fun i => film (Z.of_nat i) "Drama" 3 0) (seq 1 17)) [] [].

(** [POST /rate] in alice's session. *)
Definition post_rate (env : Env) (movie_id rating_val : string) (db : Db.t)
  : response * Db.t :=
  rate int_literal float_literal env (Some 1) (Some movie_id) (Some rating_val)
       db.

(** [GET /recommendations] in alice's session. *)
Definition get_recommendations (env : Env) (limit : option string)
    (db : Db.t) : response * Db.t :=
  recommendations int_literal env (Some 1) limit db.

End Run.

(** ** Vocabulary for the other views *)

(** Every stored rating is a value the range check accepts. *)
Definition ratings_in_range (db : Db.t) : Prop :=
  Forall (fun r => (0 <= Rating.rating r /\ Rating.rating r <= 5)%Q)
         (Db.ratings db).

(** The columns of a movie that are not aggregates. *)
Definition catalog_entry (m : Movie.t)
  : Z * string * option string * option Z * option string :=
  (Movie.movie_id m, Movie.title m, Movie.genre m, Movie.release_year m,
   Movie.poster_path m).

(** Who the session says is logged in. *)
Definition identity (s : Session) : option Z * option string :=
  (session_user_id s, session_username s).

(** No two users share a username or an email. *)
Definition users_unique (collate : string -> string -> bool)
    (us : list User.t) : Prop :=
  ForallOrdPairs
    (fun a b => collate (User.username a) (User.username b) = false /\
                collate (User.email a) (User.email b) = false)
    us.

Module Site.

Definition bob : User.t := User.mk 2 "bob" "bob@example.org" "hash:b0b" 5.

(** A catalog of three genres, one movie without genre, one with the
    empty genre. *)
Definition catalog : Db.t :=
  Db.mk [Run.alice; bob]
        [Run.film 1 "Drama" 4 2; Run.film 2 "Comedy" 3 1;
         Run.film 3 "Drama" 5 4;
         Movie.mk 4 "untagged" None None None None None;
         Run.film 5 "" 2 1; Run.film 6 "Noir" 1 1]
        [Rating.mk 1 1 1 4 0; Rating.mk 2 2 1 4 0; Rating.mk 3 2 3 5 0]
        [Recommendation.mk 1 3 "Because you liked Drama";
         Recommendation.mk 2 2 "Top rated fallback";
         Recommendation.mk 1 9 "Top rated fallback"].

(** An environment with the three required variables and a port. *)
Definition environ (name : string) : option string :=
  if String.eqb name "DB_USER" then Some "app"
  else if String.eqb name "DB_PASSWORD" then Some "s3cret"
  else if String.eqb name "DB_NAME" then Some "movies"
  else if String.eqb name "DB_PORT" then Some "3307"
  else None.

(** A toy password scheme for the runs: the hash is the password. *)
Definition plain_hash (salt password : string) : string := password.

Definition plain_check (pwd_hash password : string) : bool :=
  String.eqb pwd_hash password.

End Site.

(** * Properties *)

(** ** [ORDER BY] and [LIMIT] *)

Section OrderByFacts.
Variable A : Type.
Variable leb : A -> A -> bool.

Lemma insert_row_perm (x : A) (l : list A) :
  Permutation (x :: l) (insert_row leb x l).
Proof.
  induction l as [|y l IH]; simpl.
  - apply Permutation_refl.
  - destruct (leb x y).
    + apply Permutation_refl.
    + eapply perm_trans; [apply perm_swap|]. now apply perm_skip.
Qed.

Lemma order_by_perm (l : list A) : Permutation l (order_by leb l).
Proof.
  induction l as [|x l IH]; simpl.
  - constructor.
  - eapply perm_trans; [|apply insert_row_perm]. now apply perm_skip.
Qed.

Lemma in_order_by (x : A) (l : list A) : In x (order_by leb l) <-> In x l.
Proof.
  split; intro H.
  - eapply Permutation_in; [apply Permutation_sym, order_by_perm|exact H].
  - eapply Permutation_in; [apply order_by_perm|exact H].
Qed.

Lemma order_by_length (l : list A) : length (order_by leb l) = length l.
Proof. symmetry. apply Permutation_length, order_by_perm. Qed.

Hypothesis leb_total : forall a b, leb a b = true \/ leb b a = true.

Lemma insert_row_sorted (x : A) (l : list A) :
  Sorted (in_order leb) l -> Sorted (in_order leb) (insert_row leb x l).
Proof.
  induction l as [|y l IH]; simpl; intro Hs.
  - repeat constructor.
  - destruct (leb x y) eqn:E.
    + constructor; [exact Hs|]. constructor. exact E.
    + inversion Hs as [|? ? Hl Hhd]; subst.
      constructor; [now apply IH|].
      destruct l as [|z l]; simpl.
      * constructor. destruct (leb_total x y) as [H|H]; [congruence|exact H].
      * destruct (leb x z).
        -- constructor. destruct (leb_total x y) as [H|H]; [congruence|exact H].
        -- inversion Hhd; subst. now constructor.
Qed.

Lemma order_by_sorted (l : list A) : Sorted (in_order leb) (order_by leb l).
Proof.
  induction l as [|x l IH]; simpl.
  - constructor.
  - now apply insert_row_sorted.
Qed.

End OrderByFacts.

Lemma order_by_fixes_sorted {A : Type} (leb : A -> A -> bool) (l : list A) :
  Sorted (in_order leb) l -> order_by leb l = l.
Proof.
  induction l as [|x l IH]; simpl; intro Hs; [reflexivity|].
  inversion Hs as [|? ? Hl Hhd]; subst.
  rewrite (IH Hl). destruct l as [|y l]; simpl; [reflexivity|].
  inversion Hhd as [|? ? E]; subst. now rewrite E.
Qed.

Lemma firstn_sorted {A : Type} (R : A -> A -> Prop) (n : nat) (l : list A) :
  Sorted R l -> Sorted R (firstn n l).
Proof.
  revert l. induction n as [|n IH]; intros l Hs; simpl; [constructor|].
  destruct l as [|x l]; [constructor|].
  inversion Hs as [|? ? Hl Hhd]; subst.
  constructor; [now apply IH|].
  destruct n; simpl; [constructor|].
  destruct l as [|y l]; [constructor|].
  inversion Hhd; subst. now constructor.
Qed.

Lemma sorted_weaken {A : Type} (R R' : A -> A -> Prop) (l : list A) :
  (forall a b, R a b -> R' a b) -> Sorted R l -> Sorted R' l.
Proof.
  intros HR. induction 1 as [|x l Hl IH Hhd]; constructor; [exact IH|].
  destruct Hhd; constructor. now apply HR.
Qed.

Lemma in_firstn {A : Type} (x : A) (n : nat) (l : list A) :
  In x (firstn n l) -> In x l.
Proof.
  revert l; induction n as [|n IH]; intros [|y l]; simpl; try tauto.
  intros [H|H]; [now left|right; now apply IH].
Qed.

(** ** The rating store *)

Lemma existsb_in_map {A : Type} (key : A -> Z) (k : Z) (l : list A) :
  existsb (fun x => key x =? k) l = true <-> In k (map key l).
Proof.
  rewrite existsb_exists, in_map_iff. split.
  - intros (x & Hx & E). exists x. split; [now apply Z.eqb_eq|exact Hx].
  - intros (x & E & Hx). exists x. split; [exact Hx|now apply Z.eqb_eq].
Qed.

Lemma insert_rating_fk (user movie : Z) (v : Q) (t : Z) (db : Db.t) :
  user_exists user db -> movie_exists movie db ->
  insert_rating user movie v t db =
  Some (Db.set_ratings
          (Db.ratings db ++
           [Rating.mk (next_rating_id (Db.ratings db)) user movie v t]) db).
Proof.
  intros Hu Hm. unfold insert_rating.
  apply existsb_in_map in Hu. apply existsb_in_map in Hm.
  now rewrite Hu, Hm.
Qed.

Lemma insert_rating_no_movie (user movie : Z) (v : Q) (t : Z) (db : Db.t) :
  ~ movie_exists movie db -> insert_rating user movie v t db = None.
Proof.
  intros Hm. unfold insert_rating.
  destruct (existsb (fun m => Movie.movie_id m =? movie) (Db.movies db)) eqn:E.
  - apply existsb_in_map in E. contradiction.
  - now rewrite andb_false_r.
Qed.

Lemma find_map_stable {A : Type} (f : A -> bool) (g : A -> A) (l : list A) :
  (forall x, f (g x) = f x) -> find f (map g l) = option_map g (find f l).
Proof.
  intros Hfg. induction l as [|x l IH]; simpl; [reflexivity|].
  rewrite Hfg. destruct (f x); [reflexivity|exact IH].
Qed.

Lemma find_app_none {A : Type} (f : A -> bool) (l : list A) (x : A) :
  find f l = None -> f x = true -> find f (l ++ [x]) = Some x.
Proof.
  intros Hn Hx. induction l as [|y l IH]; simpl in *.
  - now rewrite Hx.
  - destruct (f y); [discriminate|now apply IH].
Qed.

Lemma getRating_update (user movie : Z) (r : Rating.t) (v : Q) (db : Db.t) :
  getRating user movie db = Some r ->
  getRating user movie (update_rating r v db) =
  Some (Rating.mk (Rating.rating_id r) (Rating.user_id r) (Rating.movie_id r)
                  v (Rating.rated_at r)).
Proof.
  unfold getRating, update_rating; simpl. intros H.
  rewrite find_map_stable.
  - rewrite H; simpl. now rewrite Z.eqb_refl.
  - intros x. now destruct (Rating.rating_id x =? Rating.rating_id r).
Qed.

Lemma getRating_insert (user movie : Z) (v : Q) (t : Z) (db db' : Db.t) :
  getRating user movie db = None ->
  insert_rating user movie v t db = Some db' ->
  getRating user movie db' =
  Some (Rating.mk (next_rating_id (Db.ratings db)) user movie v t).
Proof.
  unfold getRating, insert_rating. intros Hn Hi.
  destruct (_ && _); [|discriminate]. injection Hi as <-. simpl.
  apply find_app_none; [exact Hn|]. simpl. now rewrite !Z.eqb_refl.
Qed.

(** Write then read on the accessor: after a successful upsert the
    first row of the pair carries the written value. *)
Lemma upsertRating_getRating (user movie : Z) (v : Q) (t : Z)
    (db db' : Db.t) :
  upsertRating user movie v t db = Some db' ->
  option_map Rating.rating (getRating user movie db') = Some v.
Proof.
  unfold upsertRating. destruct (getRating user movie db) as [r|] eqn:G.
  - intros [= <-]. now rewrite (getRating_update _ _ _ _ _ G).
  - intros Hi. now rewrite (getRating_insert _ _ _ _ _ _ G Hi).
Qed.

Lemma upsertRating_succeeds (user movie : Z) (v : Q) (t : Z) (db : Db.t) :
  writable user movie db ->
  exists db', upsertRating user movie v t db = Some db'.
Proof.
  intros W. unfold upsertRating.
  destruct (getRating user movie db) as [r|] eqn:G; [eauto|].
  destruct W as [W|[Hu Hm]]; [congruence|].
  rewrite insert_rating_fk by assumption. eauto.
Qed.

(** Without one of the rows it needs, the write raises. *)
Lemma upsertRating_needs_writable (user movie : Z) (v : Q) (t : Z)
    (db db' : Db.t) :
  upsertRating user movie v t db = Some db' -> writable user movie db.
Proof.
  unfold upsertRating, writable, insert_rating, user_exists, movie_exists.
  destruct (getRating user movie db); [left; discriminate|].
  destruct (existsb _ (Db.users db)) eqn:Eu; [|discriminate].
  destruct (existsb _ (Db.movies db)) eqn:Em; [|discriminate].
  intros _. right. split; now apply existsb_in_map.
Qed.

Lemma in_range_spec (v : pyfloat) (q : Q) :
  in_range v = Some q <-> v = Finite q /\ (0 <= q /\ q <= 5)%Q.
Proof.
  destruct v as [x| | |]; simpl; try (split; [discriminate|intros [? _]; discriminate]).
  destruct (Qle_bool 0 x) eqn:E0, (Qle_bool x 5) eqn:E5; simpl; split;
    try discriminate.
  - intros [= <-]. rewrite <- !Qle_bool_iff. auto.
  - intros [[= <-] _]. reflexivity.
  - intros [[= <-] [_ H]]. apply Qle_bool_iff in H. congruence.
  - intros [[= <-] [H _]]. apply Qle_bool_iff in H. congruence.
  - intros [[= <-] [H _]]. apply Qle_bool_iff in H. congruence.
Qed.

Lemma in_range_none (v : pyfloat) : out_of_range v -> in_range v = None.
Proof.
  intros Ho. destruct (in_range v) as [q|] eqn:E; [|reflexivity].
  apply in_range_spec in E. destruct E as [-> Hq]. now elim Ho.
Qed.

Lemma ratings_update_movie_aggregates (mid : Z) (db : Db.t) :
  Db.ratings (update_movie_aggregates mid db) = Db.ratings db.
Proof. reflexivity. Qed.

Lemma ratings_generate_recommendations (uid limit : Z) (db : Db.t) :
  Db.ratings (generate_recommendations_for_user_v2 uid limit db) =
  Db.ratings db.
Proof. reflexivity. Qed.

Lemma movies_generate_recommendations (uid limit : Z) (db : Db.t) :
  Db.movies (generate_recommendations_for_user_v2 uid limit db) =
  Db.movies db.
Proof. reflexivity. Qed.

Lemma getRating_ratings (user movie : Z) (db db' : Db.t) :
  Db.ratings db' = Db.ratings db ->
  getRating user movie db' = getRating user movie db.
Proof. unfold getRating. now intros ->. Qed.

(** ** The [/rate] view *)

Section RateFacts.
Variable py_int : string -> option Z.
Variable py_float : string -> option pyfloat.

(** [int("")] and [float("")] raise [ValueError]. *)
Hypothesis py_int_empty : py_int "" = None.
Hypothesis py_float_empty : py_float "" = None.

Lemma py_int_truthy (s : string) (n : Z) :
  py_int s = Some n -> falsy (Some s) = false.
Proof.
  intros H. simpl. destruct (String.eqb_spec s ""); [subst; congruence|reflexivity].
Qed.

Lemma py_float_truthy (s : string) (v : pyfloat) :
  py_float s = Some v -> falsy (Some s) = false.
Proof.
  intros H. simpl. destruct (String.eqb_spec s ""); [subst; congruence|reflexivity].
Qed.

(** Once both fields parse, the view is the range check followed by the
    write. *)
Lemma rate_parsed (env : Env) (user : Z) (movie_id rating_val : string)
    (mid : Z) (v : pyfloat) (db : Db.t) :
  py_int movie_id = Some mid -> py_float rating_val = Some v ->
  rate py_int py_float env (Some user) (Some movie_id) (Some rating_val) db =
  match in_range v with
  | None => (JsonError 400 "rating out of range", db)
  | Some q => rate_write env user mid q db
  end.
Proof.
  intros Hi Hf. unfold rate.
  rewrite (py_int_truthy _ _ Hi), (py_float_truthy _ _ Hf); simpl.
  now rewrite Hi, Hf.
Qed.

Lemma rate_write_ok (env : Env) (user mid : Z) (q : Q) (db db1 : Db.t) :
  upsertRating user mid q (now env) db = Some db1 ->
  fst (rate_write env user mid q db) = JsonOk /\
  Db.ratings (snd (rate_write env user mid q db)) = Db.ratings db1.
Proof.
  intros H. unfold rate_write. rewrite H. simpl. split; [reflexivity|].
  destruct (proc_fails env), (aggregate_fails env); reflexivity.
Qed.

Ltac refused := split; [reflexivity|eexists; reflexivity].

(** C4. A rating field that does not parse as a number, or parses to a
    value outside [0, 5] (a non-finite value included), makes [/rate]
    answer 400 for a logged-in user (401 otherwise) and leaves the whole
    store, hence every [Rating] row, as it was. *)
Theorem rate_rejects_invalid_value (env : Env) (session : option Z)
    (movie_id : option string) (rating_val : string) (db : Db.t) :
  py_float rating_val = None \/
  (exists v, py_float rating_val = Some v /\ out_of_range v) ->
  snd (rate py_int py_float env session movie_id (Some rating_val) db) = db /\
  match session with
  | Some _ =>
      exists msg,
        fst (rate py_int py_float env session movie_id (Some rating_val) db)
        = JsonError 400 msg
  | None =>
      fst (rate py_int py_float env session movie_id (Some rating_val) db)
      = JsonError 401 "not authenticated"
  end.
Proof.
  intros Hbad. unfold rate.
  destruct session as [user|]; [|split; reflexivity].
  destruct (falsy movie_id || falsy (Some rating_val)); [refused|].
  destruct movie_id as [m|]; [|refused].
  destruct (py_int m) as [mid|]; [|refused].
  destruct Hbad as [Hf|(v & Hf & Ho)]; rewrite Hf; [refused|].
  rewrite (in_range_none _ Ho). refused.
Qed.

(** Write then read under the convention that values are rationals
    stored unchanged: for a rating [q] with 0 <= q <= 5 and a pair whose
    write can go through, [/rate] answers [{"ok": true}] and the row
    then read for the pair carries [q].  What the single-precision
    [Float] column of [Rating] does to a value is outside the
    embedding. *)
Lemma rate_then_getRating (env : Env) (user : Z)
    (movie_id rating_val : string) (mid : Z) (q : Q) (db : Db.t) :
  py_int movie_id = Some mid ->
  py_float rating_val = Some (Finite q) ->
  (0 <= q /\ q <= 5)%Q ->
  writable user mid db ->
  let out :=
    rate py_int py_float env (Some user) (Some movie_id) (Some rating_val) db in
  fst out = JsonOk /\
  option_map Rating.rating (getRating user mid (snd out)) = Some q.
Proof.
  intros Hi Hf Hq W out. subst out.
  rewrite (rate_parsed _ _ _ _ _ _ _ Hi Hf).
  assert (E : in_range (Finite q) = Some q) by (apply in_range_spec; auto).
  rewrite E.
  destruct (upsertRating_succeeds user mid q (now env) db W) as [db1 H1].
  destruct (rate_write_ok env _ _ _ _ _ H1) as [Hok Hr].
  split; [exact Hok|].
  rewrite (getRating_ratings _ _ _ _ Hr).
  exact (upsertRating_getRating _ _ _ _ _ _ H1).
Qed.

(** C6. Once the rating write itself went through, [/rate] answers
    [{"ok": true}] and the written rows stay, whether or not the
    aggregate update raises and whether or not the recommendation
    procedure raises. *)
Theorem rate_survives_side_effect_failure (t : Z)
    (aggregate_raises proc_raises : bool) (user : Z)
    (movie_id rating_val : string) (mid : Z) (q : Q) (db db1 : Db.t) :
  py_int movie_id = Some mid ->
  py_float rating_val = Some (Finite q) ->
  (0 <= q /\ q <= 5)%Q ->
  upsertRating user mid q t db = Some db1 ->
  let out :=
    rate py_int py_float (mkEnv t aggregate_raises proc_raises)
         (Some user) (Some movie_id) (Some rating_val) db in
  fst out = JsonOk /\
  Db.ratings (snd out) = Db.ratings db1 /\
  option_map Rating.rating (getRating user mid (snd out)) = Some q.
Proof.
  intros Hi Hf Hq H1 out. subst out.
  rewrite (rate_parsed _ _ _ _ _ _ _ Hi Hf).
  assert (E : in_range (Finite q) = Some q) by (apply in_range_spec; auto).
  rewrite E.
  destruct (rate_write_ok (mkEnv t aggregate_raises proc_raises)
              _ _ _ _ _ H1) as [Hok Hr].
  repeat split; [exact Hok|exact Hr|].
  rewrite (getRating_ratings _ _ _ _ Hr).
  exact (upsertRating_getRating _ _ _ _ _ _ H1).
Qed.

Lemma rate_status (env : Env) (session : option Z)
    (movie_id rating_val : option string) (db : Db.t) :
  match fst (rate py_int py_float env session movie_id rating_val db) with
  | JsonError status _ => status = 400 \/ status = 401
  | JsonOk => True
  | Unhandled e => e = "IntegrityError"
  | _ => False
  end.
Proof.
  unfold rate. destruct session; simpl; [|now right].
  destruct (falsy movie_id || falsy rating_val); simpl; [now left|].
  destruct movie_id as [m|], rating_val as [r|]; simpl; try now left.
  destruct (py_int m), (py_float r) as [v|]; simpl; try now left.
  destruct (in_range v); simpl; [|now left].
  unfold rate_write. now destruct (upsertRating _ _ _ _ _).
Qed.

(** C10, amended.  [/rate] has no existence check of its own and never
    answers 404.  With a [users] row for the logged-in user and a
    [movies] row for the id it answers [{"ok": true}] and the pair then
    has a row; for an id without a [movies] row and a pair without a row
    the insert violates the foreign key of [Rating.movie_id], the view
    ends in an unhandled [IntegrityError] and the store is unchanged. *)
Theorem rate_movie_existence (env : Env) (user : Z)
    (movie_id rating_val : string) (mid : Z) (q : Q) (db : Db.t) :
  py_int movie_id = Some mid ->
  py_float rating_val = Some (Finite q) ->
  (0 <= q /\ q <= 5)%Q ->
  user_exists user db ->
  let out :=
    rate py_int py_float env (Some user) (Some movie_id) (Some rating_val) db in
  (forall msg, fst out <> JsonError 404 msg) /\
  (movie_exists mid db ->
   fst out = JsonOk /\ getRating user mid (snd out) <> None) /\
  (~ movie_exists mid db -> getRating user mid db = None ->
   out = (Unhandled "IntegrityError", db)).
Proof.
  intros Hi Hf Hq Hu out. split; [|split].
  - intros msg E. subst out.
    pose proof (rate_status env (Some user) (Some movie_id) (Some rating_val) db)
      as S.
    rewrite E in S. destruct S; discriminate.
  - intros Hm. subst out.
    rewrite (rate_parsed _ _ _ _ _ _ _ Hi Hf).
    assert (E : in_range (Finite q) = Some q) by (apply in_range_spec; auto).
    rewrite E.
    destruct (upsertRating_succeeds user mid q (now env) db
                (or_intror (conj Hu Hm))) as [db1 H1].
    destruct (rate_write_ok env _ _ _ _ _ H1) as [Hok Hr].
    split; [exact Hok|].
    rewrite (getRating_ratings _ _ _ _ Hr).
    pose proof (upsertRating_getRating _ _ _ _ _ _ H1) as G.
    intros N. rewrite N in G. discriminate.
  - intros Hm Hn. subst out.
    rewrite (rate_parsed _ _ _ _ _ _ _ Hi Hf).
    assert (E : in_range (Finite q) = Some q) by (apply in_range_spec; auto).
    rewrite E. unfold rate_write, upsertRating. rewrite Hn.
    now rewrite insert_rating_no_movie.
Qed.

End RateFacts.

(** ** The aggregate update *)

Lemma update_movie_aggregates_current (mid : Z) (db : Db.t) :
  aggregates_current mid (update_movie_aggregates mid db).
Proof.
  intros m Hin Hid. unfold update_movie_aggregates in Hin; simpl in Hin.
  apply in_map_iff in Hin. destruct Hin as (m0 & E & _).
  unfold recomputed_count, recomputed_avg, ratings_of_movie; simpl.
  destruct (Movie.movie_id m0 =? mid) eqn:T.
  - subst m; simpl. split; [reflexivity|].
    now destruct (sql_avg _).
  - subst m0. apply Z.eqb_neq in T. contradiction.
Qed.

Lemma update_movie_aggregates_idempotent (mid : Z) (db : Db.t) :
  update_movie_aggregates mid (update_movie_aggregates mid db) =
  update_movie_aggregates mid db.
Proof.
  unfold update_movie_aggregates, ratings_of_movie, Db.set_movies; simpl.
  f_equal. rewrite map_map. apply map_ext. intros m.
  destruct (Movie.movie_id m =? mid) eqn:T; simpl; now rewrite T.
Qed.

Lemma aggregates_current_proc (mid uid limit : Z) (db : Db.t) :
  aggregates_current mid db ->
  aggregates_current mid (generate_recommendations_for_user_v2 uid limit db).
Proof. intros H m Hin Hid. exact (H m Hin Hid). Qed.

(** With current aggregates the [UPDATE] changes nothing. *)
Lemma update_movie_aggregates_settled (mid : Z) (db : Db.t) :
  aggregates_current mid db -> update_movie_aggregates mid db = db.
Proof.
  intros H. destruct db as [us ms rs cs].
  unfold update_movie_aggregates, Db.set_movies; simpl. f_equal.
  rewrite <- (map_id ms) at 2. apply map_ext_in. intros m Hin.
  destruct (Movie.movie_id m =? mid) eqn:T; [|reflexivity].
  apply Z.eqb_eq in T. destruct (H m Hin T) as [Hc Ha].
  unfold recomputed_count, recomputed_avg, ratings_of_movie in Hc, Ha.
  simpl in Hc, Ha. destruct m; simpl in *. subst.
  now destruct (sql_avg _).
Qed.

(** [ROUND(x, 2)] is a number of hundredths at most half a hundredth
    away from [x]. *)
Lemma sql_round2_nearest (x : Q) :
  (exists k, sql_round2 x = Qmake k 100) /\
  (Qabs (sql_round2 x - x) <= 1 # 200)%Q.
Proof.
  split; [unfold sql_round2; eauto|].
  unfold sql_round2.
  set (n := (x * 100)%Q). set (f := Qfloor n).
  pose proof (Qfloor_le n) as Hlo. pose proof (Qlt_floor n) as Hhi.
  fold f in Hlo, Hhi. rewrite inject_Z_plus in Hhi.
  change (inject_Z 1) with 1%Q in Hhi.
  assert (Hk : forall k : Z, (Qmake k 100 == inject_Z k * (1 # 100))%Q).
  { intros k. rewrite (Qmake_Qdiv k 100). reflexivity. }
  assert (Hx : (x == n * (1 # 100))%Q) by (unfold n; field).
  rewrite Hx. clearbody f. clearbody n. clear Hx.
  apply Qabs_Qle_condition.
  destruct (n - inject_Z f ?= 1 # 2)%Q eqn:C.
  - apply Qeq_alt in C.
    destruct (Z.even f); rewrite Hk;
      [|rewrite inject_Z_plus; change (inject_Z 1) with 1%Q]; split; lra.
  - apply Qlt_alt in C. rewrite Hk. split; lra.
  - apply Qgt_alt in C. rewrite Hk, inject_Z_plus.
    change (inject_Z 1) with 1%Q. split; lra.
Qed.

Section AggregateFacts.
Variable py_int : string -> option Z.
Variable py_float : string -> option pyfloat.

(** The only way through [/rate] to [{"ok": true}]. *)
Lemma rate_ok_inv (env : Env) (session : option Z)
    (movie_id rating_val : option string) (db : Db.t) :
  fst (rate py_int py_float env session movie_id rating_val db) = JsonOk ->
  exists user m r mid v q,
    session = Some user /\ movie_id = Some m /\ rating_val = Some r /\
    py_int m = Some mid /\ py_float r = Some v /\ in_range v = Some q /\
    rate py_int py_float env session movie_id rating_val db =
    rate_write env user mid q db.
Proof.
  unfold rate. destruct session as [user|]; [|discriminate].
  destruct (falsy movie_id || falsy rating_val); [discriminate|].
  destruct movie_id as [m|]; [|discriminate].
  destruct rating_val as [r|]; [|discriminate].
  destruct (py_int m) as [mid|] eqn:Hi; [|discriminate].
  destruct (py_float r) as [v|] eqn:Hf; [|discriminate].
  destruct (in_range v) as [q|] eqn:Hq; [|discriminate].
  intros _. exists user, m, r, mid, v, q. repeat split; assumption.
Qed.

Lemma rate_write_aggregates (env : Env) (user mid : Z) (q : Q) (db : Db.t) :
  fst (rate_write env user mid q db) = JsonOk ->
  aggregate_fails env = false ->
  aggregates_current mid (snd (rate_write env user mid q db)).
Proof.
  unfold rate_write.
  destruct (upsertRating user mid q (now env) db) as [db1|]; [|discriminate].
  intros _ ->. simpl.
  destruct (proc_fails env).
  - apply update_movie_aggregates_current.
  - apply aggregates_current_proc, update_movie_aggregates_current.
Qed.

(** C3, amended.  After [/rate] answered [{"ok": true}] for movie [mid]
    and its aggregate update did not raise, every [movies] row of [mid]
    has [ratings_count] equal to the number of [ratings] rows that
    reference [mid] and [avg_rating] equal to their mean rounded to two
    decimals (0 without rows); running the update again changes
    nothing, and the update is idempotent on every store. *)
Theorem rate_recomputes_aggregates (env : Env) (session : option Z)
    (movie_id : string) (rating_val : option string) (mid : Z) (db : Db.t) :
  py_int movie_id = Some mid ->
  aggregate_fails env = false ->
  let out := rate py_int py_float env session (Some movie_id) rating_val db in
  fst out = JsonOk ->
  (forall m, In m (Db.movies (snd out)) -> Movie.movie_id m = mid ->
     Movie.ratings_count m = Some (sql_count (ratings_of_movie mid (snd out)))
     /\ Movie.avg_rating m =
        Some (match sql_avg (map Rating.rating (ratings_of_movie mid (snd out)))
              with
              | Some mean => sql_round2 mean
              | None => 0%Q
              end)) /\
  update_movie_aggregates mid (snd out) = snd out /\
  (forall db0,
     update_movie_aggregates mid (update_movie_aggregates mid db0) =
     update_movie_aggregates mid db0).
Proof.
  intros Hi Hagg out Hok.
  destruct (rate_ok_inv _ _ _ _ _ Hok)
    as (user & m & r & mid' & v & q & _ & [= <-] & _ & Hi' & _ & _ & E).
  assert (mid' = mid) by congruence. subst mid'.
  subst out. rewrite E in *.
  pose proof (rate_write_aggregates env user mid q db Hok Hagg) as Hcur.
  split; [exact Hcur|]. split.
  - now apply update_movie_aggregates_settled.
  - intros db0. apply update_movie_aggregates_idempotent.
Qed.

End AggregateFacts.

(** ** One row per (user, movie) pair *)

Lemma find_hd_filter {A : Type} (f : A -> bool) (l : list A) :
  find f l = hd_error (filter f l).
Proof.
  induction l as [|x l IH]; simpl; [reflexivity|].
  destruct (f x); [reflexivity|exact IH].
Qed.

Lemma filter_map_stable {A : Type} (f : A -> bool) (g : A -> A) (l : list A) :
  (forall x, f (g x) = f x) -> filter f (map g l) = map g (filter f l).
Proof.
  intros Hfg. induction l as [|x l IH]; simpl; [reflexivity|].
  rewrite Hfg. destruct (f x); simpl; now rewrite IH.
Qed.

Lemma getRating_rows (user movie : Z) (db : Db.t) :
  getRating user movie db = hd_error (rows_of_pair user movie db).
Proof. apply find_hd_filter. Qed.

Lemma upsertRating_pair (user movie : Z) (v : Q) (t : Z) (db db' : Db.t) :
  (length (rows_of_pair user movie db) <= 1)%nat ->
  upsertRating user movie v t db = Some db' ->
  (exists r, rows_of_pair user movie db' = [r] /\ Rating.rating r = v) /\
  length (Db.ratings db') =
  (length (Db.ratings db)
   + match getRating user movie db with Some _ => 0 | None => 1 end)%nat /\
  Db.users db' = Db.users db /\ Db.movies db' = Db.movies db.
Proof.
  intros Hone. unfold upsertRating.
  pose proof (getRating_rows user movie db) as G.
  destruct (getRating user movie db) as [r|].
  - intros [= <-]. unfold rows_of_pair, update_rating in *; simpl.
    rewrite filter_map_stable
      by (intros x; now destruct (Rating.rating_id x =? Rating.rating_id r)).
    destruct (filter (is_pair user movie) (Db.ratings db)) as [|r0 [|r1 l]];
      simpl in *; try discriminate; try lia.
    injection G as <-. rewrite Z.eqb_refl.
    repeat split; [eexists; split; reflexivity|].
    rewrite length_map. lia.
  - intros Hi. unfold insert_rating in Hi.
    destruct (_ && _); [|discriminate]. injection Hi as <-.
    unfold rows_of_pair in *; simpl. rewrite filter_app; simpl.
    unfold is_pair at 2; simpl. rewrite !Z.eqb_refl; simpl.
    destruct (filter (is_pair user movie) (Db.ratings db)); [|discriminate].
    repeat split; [eexists; split; reflexivity|].
    rewrite length_app. reflexivity.
Qed.

Lemma upsertRating_other_pair (user movie user' movie' : Z) (v : Q) (t : Z)
    (db db' : Db.t) :
  (user' =? user) && (movie' =? movie) = false ->
  upsertRating user' movie' v t db = Some db' ->
  length (rows_of_pair user movie db') = length (rows_of_pair user movie db).
Proof.
  intros Hne. unfold upsertRating.
  destruct (getRating user' movie' db) as [r|].
  - intros [= <-]. unfold rows_of_pair, update_rating; simpl.
    rewrite filter_map_stable
      by (intros x; now destruct (Rating.rating_id x =? Rating.rating_id r)).
    apply length_map.
  - unfold insert_rating.
    destruct (existsb _ (Db.users db) && _); [|discriminate].
    intros [= <-]. unfold rows_of_pair; simpl. rewrite filter_app; simpl.
    unfold is_pair at 2; simpl. rewrite Hne. simpl. now rewrite app_nil_r.
Qed.

(** A write for any pair keeps the bound of one row for every pair. *)
Lemma upsertRating_bound (user movie user' movie' : Z) (v : Q) (t : Z)
    (db db' : Db.t) :
  (length (rows_of_pair user movie db) <= 1)%nat ->
  upsertRating user' movie' v t db = Some db' ->
  (length (rows_of_pair user movie db') <= 1)%nat.
Proof.
  intros Hone H.
  destruct ((user' =? user) && (movie' =? movie)) eqn:E.
  - apply andb_true_iff in E. destruct E as [Eu Em].
    apply Z.eqb_eq in Eu. apply Z.eqb_eq in Em. subst user' movie'.
    destruct (upsertRating_pair _ _ _ _ _ _ Hone H) as ((r & -> & _) & _).
    simpl. lia.
  - now rewrite (upsertRating_other_pair _ _ _ _ _ _ _ _ E H).
Qed.

Section PairFacts.
Variable py_int : string -> option Z.
Variable py_float : string -> option pyfloat.
Hypothesis py_int_empty : py_int "" = None.
Hypothesis py_float_empty : py_float "" = None.

Lemma rate_step (env : Env) (user : Z) (movie_id rating_val : string)
    (mid : Z) (q : Q) (db : Db.t) :
  py_int movie_id = Some mid ->
  py_float rating_val = Some (Finite q) -> (0 <= q /\ q <= 5)%Q ->
  writable user mid db ->
  (length (rows_of_pair user mid db) <= 1)%nat ->
  let out :=
    rate py_int py_float env (Some user) (Some movie_id) (Some rating_val) db in
  fst out = JsonOk /\
  (exists r, rows_of_pair user mid (snd out) = [r] /\ Rating.rating r = q) /\
  length (Db.ratings (snd out)) =
  (length (Db.ratings db)
   + match getRating user mid db with Some _ => 0 | None => 1 end)%nat /\
  (aggregate_fails env = false -> aggregates_current mid (snd out)).
Proof.
  intros Hi Hf Hq W Hone out. subst out.
  rewrite (rate_parsed py_int py_float py_int_empty py_float_empty
             _ _ _ _ _ _ _ Hi Hf).
  assert (E : in_range (Finite q) = Some q) by (apply in_range_spec; auto).
  rewrite E.
  destruct (upsertRating_succeeds user mid q (now env) db W) as [db1 H1].
  destruct (upsertRating_pair _ _ _ _ _ _ Hone H1) as (Hrow & Hlen & _).
  pose proof (rate_write_aggregates env user mid q db) as Hagg.
  unfold rate_write in *. rewrite H1 in *. simpl in *.
  assert (R : forall db', Db.ratings db' = Db.ratings db1 ->
                          rows_of_pair user mid db' = rows_of_pair user mid db1)
    by (intros db' Hr; unfold rows_of_pair; now rewrite Hr).
  split; [reflexivity|].
  split; [rewrite R; [exact Hrow|];
          now destruct (proc_fails env), (aggregate_fails env)|].
  split; [rewrite <- Hlen; now destruct (proc_fails env), (aggregate_fails env)|].
  auto.
Qed.

(** Whatever the request, [/rate] keeps the bound of one row. *)
Lemma rate_bound (env : Env) (session : option Z)
    (movie_id rating_val : option string) (user mid : Z) (db : Db.t) :
  (length (rows_of_pair user mid db) <= 1)%nat ->
  (length (rows_of_pair user mid
             (snd (rate py_int py_float env session movie_id rating_val db)))
   <= 1)%nat.
Proof.
  intros Hone. unfold rate.
  destruct session as [u|]; [|exact Hone].
  destruct (falsy movie_id || falsy rating_val); [exact Hone|].
  destruct movie_id as [m|], rating_val as [r|]; try exact Hone.
  destruct (py_int m) as [m'|], (py_float r) as [v|]; try exact Hone.
  destruct (in_range v) as [q|]; [|exact Hone].
  unfold rate_write.
  destruct (upsertRating u m' q (now env) db) as [db1|] eqn:H1; [|exact Hone].
  pose proof (upsertRating_bound user mid _ _ _ _ _ _ Hone H1) as B.
  simpl. now destruct (proc_fails env), (aggregate_fails env).
Qed.

Lemma rate_each_bound (reqs : list (Env * string)) (user' : Z)
    (movie_id : string) (user mid : Z) (db : Db.t) :
  (length (rows_of_pair user mid db) <= 1)%nat ->
  (length (rows_of_pair user mid
             (snd (rate_each py_int py_float reqs user' movie_id db)))
   <= 1)%nat.
Proof.
  revert db. induction reqs as [|[e v] reqs IH]; intros db Hone.
  - exact Hone.
  - cbn [rate_each].
    pose proof (rate_bound e (Some user') (Some movie_id) (Some v) user mid db
                  Hone) as B.
    destruct (rate py_int py_float e (Some user') (Some movie_id) (Some v) db)
      as [resp db1]. cbn [snd] in B.
    specialize (IH db1 B).
    now destruct (rate_each py_int py_float reqs user' movie_id db1).
Qed.

Lemma rate_each_cons (env : Env) (rating_val : string)
    (reqs : list (Env * string)) (user : Z) (movie_id : string) (db : Db.t) :
  rate_each py_int py_float ((env, rating_val) :: reqs) user movie_id db =
  let out :=
    rate py_int py_float env (Some user) (Some movie_id) (Some rating_val) db in
  (fst out :: fst (rate_each py_int py_float reqs user movie_id (snd out)),
   snd (rate_each py_int py_float reqs user movie_id (snd out))).
Proof.
  cbn [rate_each].
  destruct (rate py_int py_float env (Some user) (Some movie_id)
                 (Some rating_val) db) as [resp db1].
  cbv zeta. cbn [fst snd].
  now destruct (rate_each py_int py_float reqs user movie_id db1).
Qed.

(** A run that can write ends with one row, carrying the last value. *)
Lemma rate_each_one_row (reqs : list (Env * string))
    (last_env : Env) (last_val : string) (last_q : Q)
    (user : Z) (movie_id : string) (mid : Z) (db : Db.t) :
  py_int movie_id = Some mid ->
  (forall e v, In (e, v) reqs -> in_range_field py_float v) ->
  py_float last_val = Some (Finite last_q) -> (0 <= last_q /\ last_q <= 5)%Q ->
  writable user mid db ->
  (length (rows_of_pair user mid db) <= 1)%nat ->
  let out :=
    rate_each py_int py_float (reqs ++ [(last_env, last_val)]) user movie_id
              db in
  Forall (eq JsonOk) (fst out) /\
  (exists r, rows_of_pair user mid (snd out) = [r] /\
             Rating.rating r = last_q) /\
  length (Db.ratings (snd out)) =
  (length (Db.ratings db)
   + match getRating user mid db with Some _ => 0 | None => 1 end)%nat /\
  (aggregate_fails last_env = false -> aggregates_current mid (snd out)).
Proof.
  intros Hi Hall Hf Hq. revert db.
  induction reqs as [|[e v] reqs IH]; intros db W Hone;
    cbv zeta; rewrite ?app_nil_l, <- ?app_comm_cons, rate_each_cons;
    cbn [fst snd].
  - destruct (rate_step last_env user movie_id last_val mid last_q db)
      as (Hok & Hrow & Hlen & Hagg); [assumption..|].
    cbn [rate_each fst snd]. rewrite Hok.
    split; [repeat constructor|]. split; [exact Hrow|]. split; assumption.
  - destruct (Hall e v (or_introl eq_refl)) as (q & Hfv & Hqv).
    destruct (rate_step e user movie_id v mid q db)
      as (Hok & (r & Hrow & _) & Hlen & _); [assumption..|].
    set (db1 := snd (rate py_int py_float e (Some user) (Some movie_id)
                          (Some v) db)) in *.
    assert (G1 : getRating user mid db1 = Some r)
      by (rewrite getRating_rows, Hrow; reflexivity).
    assert (W1 : writable user mid db1) by (left; congruence).
    assert (Hone1 : (length (rows_of_pair user mid db1) <= 1)%nat)
      by (rewrite Hrow; simpl; lia).
    destruct (IH (fun e' v' H => Hall e' v' (or_intror H)) db1 W1 Hone1)
      as (Hoks & Hrow2 & Hlen2 & Hagg2).
    rewrite Hok.
    split; [now constructor|]. split; [exact Hrow2|]. split; [|exact Hagg2].
    rewrite Hlen2, Hlen, G1. lia.
Qed.

(** C5, amended.  From a store holding at most one row for the pair,
    after any non-empty run of in-range [/rate] requests of one user
    for one movie the pair still has at most one row.  When the write
    can go through (the pair has a row, or user and movie have theirs):
    every request answered [{"ok": true}]; the pair has exactly one row
    and it carries the value of the last request; the table grew by one
    row if the pair had none and by no row otherwise; and, when the
    aggregate update of the last request did not raise, the movie's
    aggregates are those recomputed from the final rows, where the pair
    counts once, with its final value. *)
Theorem rate_keeps_one_row_per_pair (reqs : list (Env * string))
    (last_env : Env) (last_val : string) (last_q : Q)
    (user : Z) (movie_id : string) (mid : Z) (db : Db.t) :
  py_int movie_id = Some mid ->
  (forall e v, In (e, v) reqs -> in_range_field py_float v) ->
  py_float last_val = Some (Finite last_q) -> (0 <= last_q /\ last_q <= 5)%Q ->
  (length (rows_of_pair user mid db) <= 1)%nat ->
  let out :=
    rate_each py_int py_float (reqs ++ [(last_env, last_val)]) user movie_id
              db in
  (length (rows_of_pair user mid (snd out)) <= 1)%nat /\
  (writable user mid db ->
   Forall (eq JsonOk) (fst out) /\
   (exists r, rows_of_pair user mid (snd out) = [r] /\
              Rating.rating r = last_q) /\
   length (Db.ratings (snd out)) =
   (length (Db.ratings db)
    + match getRating user mid db with Some _ => 0 | None => 1 end)%nat /\
   (aggregate_fails last_env = false -> aggregates_current mid (snd out))).
Proof.
  intros Hi Hall Hf Hq Hone out. split.
  - now apply rate_each_bound.
  - intros W.
    exact (rate_each_one_row reqs last_env last_val last_q user movie_id mid db
             Hi Hall Hf Hq W Hone).
Qed.

End PairFacts.

(** ** The recommendation generator *)

Lemma mem_id_false (x : Z) (l : list Z) : mem_id x l = false <-> ~ In x l.
Proof.
  unfold mem_id. split.
  - intros E Hin. assert (T : existsb (Z.eqb x) l = true).
    { apply existsb_exists. exists x. split; [exact Hin|apply Z.eqb_refl]. }
    congruence.
  - intros Hn. destruct (existsb (Z.eqb x) l) eqn:E; [|reflexivity].
    apply existsb_exists in E. destruct E as (y & Hy & Exy).
    apply Z.eqb_eq in Exy. subst y. contradiction.
Qed.

Lemma unseen_not_in (ex : list Z) (m : Movie.t) :
  unseen ex m = true <-> ~ In (Movie.movie_id m) ex.
Proof.
  unfold unseen. rewrite negb_true_iff. apply mem_id_false.
Qed.

Lemma unseen_app (a b : list Z) (m : Movie.t) :
  unseen (a ++ b) m = true -> unseen a m = true.
Proof.
  rewrite !unseen_not_in. intros H Hin. apply H, in_or_app. now left.
Qed.

Lemma topRated_in (ex : list Z) (limit : Z) (db : Db.t) (m : Movie.t) :
  In m (topRated ex limit db) -> In m (Db.movies db) /\ unseen ex m = true.
Proof.
  unfold topRated. intros H.
  apply in_firstn, in_order_by, filter_In in H. exact H.
Qed.

(** Every pick of the generator is a catalog movie the user has not
    rated. *)
Lemma generate_unseen (user limit : Z) (db : Db.t) (p : Movie.t * string) :
  In p (generate user limit db) ->
  In (fst p) (Db.movies db) /\ unseen (ratedMovieIds user db) (fst p) = true.
Proof.
  unfold generate. destruct (ratings_of_user user db) as [|r0 rs].
  - rewrite in_map_iff. intros (m & <- & Hm). simpl.
    now apply topRated_in in Hm.
  - rewrite in_app_iff, !in_map_iff. intros [(m & <- & Hm)|(m & <- & Hm)]; simpl.
    + apply in_firstn, in_order_by, filter_In in Hm.
      destruct Hm as [Hin Hb]. apply andb_true_iff in Hb. tauto.
    + destruct (_ <? limit); [|contradiction].
      apply topRated_in in Hm. destruct Hm as [Hin Hu].
      split; [exact Hin|]. now apply unseen_app in Hu.
Qed.

Lemma firstn_length_le {A : Type} (n : nat) (l : list A) :
  (length (firstn n l) <= n)%nat.
Proof. rewrite length_firstn. lia. Qed.

(** The generator returns at most [limit] picks. *)
Lemma generate_length (user limit : Z) (db : Db.t) :
  0 <= limit -> Z.of_nat (length (generate user limit db)) <= limit.
Proof.
  intros Hl. unfold generate. destruct (ratings_of_user user db) as [|r0 rs].
  - rewrite length_map. unfold topRated.
    pose proof (firstn_length_le (Z.to_nat limit)
      (order_by (lex by_avg_rating_desc by_movie_id_asc)
         (filter (unseen (ratedMovieIds user db)) (Db.movies db)))). lia.
  - rewrite length_app, !length_map.
    set (top := firstn (Z.to_nat limit) _).
    destruct (Z.of_nat (length top) <? limit) eqn:E; simpl.
    + unfold topRated.
      match goal with
      | |- context [length (firstn ?k ?l)] =>
          pose proof (firstn_length_le k l)
      end. apply Z.ltb_lt in E. lia.
    + pose proof (firstn_length_le (Z.to_nat limit)
        (order_by
           (lex by_avg_rating_desc (lex by_ratings_count_desc by_movie_id_asc))
           (filter (fun m => in_genres (liked_genres user db) m
                             && unseen (ratedMovieIds user db) m)
                   (Db.movies db)))) as H.
      fold top in H. lia.
Qed.


Lemma filter_none {A : Type} (f : A -> bool) (l : list A) :
  (forall x, In x l -> f x = false) -> filter f l = [].
Proof.
  induction l as [|x l IH]; simpl; intros H; [reflexivity|].
  rewrite (H x (or_introl eq_refl)). apply IH. intros y Hy. apply H. now right.
Qed.

Lemma filter_all {A : Type} (f : A -> bool) (l : list A) :
  (forall x, In x l -> f x = true) -> filter f l = l.
Proof.
  induction l as [|x l IH]; simpl; intros H; [reflexivity|].
  rewrite (H x (or_introl eq_refl)). f_equal. apply IH. intros y Hy.
  apply H. now right.
Qed.




(** Every row the view reads for a user after a regeneration is a pick
    of the generator. *)
Lemma select_after_generate (uid limit : Z) (db : Db.t) (r : rec) :
  In r (select_recommendations uid
          (generate_recommendations_for_user_v2 uid limit db)) ->
  exists p, In p (generate uid limit db) /\
            rec_movie_id r = Movie.movie_id (fst p) /\ rec_reason r = snd p.
Proof.
  unfold select_recommendations, join_movies. rewrite in_map_iff.
  intros ([c m] & <- & H). apply in_order_by, filter_In in H.
  destruct H as [H Hu]. simpl in Hu. apply Z.eqb_eq in Hu.
  apply in_flat_map in H. destruct H as (c' & Hc' & H).
  apply in_map_iff in H. destruct H as (m' & [= <- <-] & Hm).
  apply filter_In in Hm. destruct Hm as [_ E]. apply Z.eqb_eq in E.
  simpl in Hc'. unfold replaceForUser in Hc'. apply in_app_or in Hc'.
  destruct Hc' as [Hold|Hnew].
  - apply filter_In in Hold. destruct Hold as [_ N].
    apply negb_true_iff, Z.eqb_neq in N. contradiction.
  - apply in_map_iff in Hnew. destruct Hnew as (p & <- & Hp).
    exists p. simpl in *. auto.
Qed.

(** ** Orderings *)

Lemma float_desc_total (a b : option Q) :
  float_desc a b = true \/ float_desc b a = true.
Proof.
  destruct a as [x|], b as [y|]; simpl; auto.
  destruct (Qlt_le_dec x y) as [H|H].
  - right. apply Qle_bool_iff. now apply Qlt_le_weak.
  - left. now apply Qle_bool_iff.
Qed.

Lemma by_avg_rating_desc_total (a b : Movie.t) :
  by_avg_rating_desc a b = true \/ by_avg_rating_desc b a = true.
Proof. apply float_desc_total. Qed.

Lemma by_movie_id_asc_total (a b : Movie.t) :
  by_movie_id_asc a b = true \/ by_movie_id_asc b a = true.
Proof. unfold by_movie_id_asc. rewrite !Z.leb_le. lia. Qed.

Lemma lex_total {A : Type} (c1 c2 : A -> A -> bool) :
  (forall a b, c2 a b = true \/ c2 b a = true) ->
  forall a b, lex c1 c2 a b = true \/ lex c1 c2 b a = true.
Proof.
  intros H2 a b. unfold lex.
  destruct (c1 a b), (c1 b a); simpl; auto.
Qed.

Lemma lex_first {A : Type} (c1 c2 : A -> A -> bool) (a b : A) :
  (forall a b, c1 a b = true \/ c1 b a = true) ->
  lex c1 c2 a b = true -> c1 a b = true.
Proof.
  intros H1. unfold lex.
  destruct (c1 a b) eqn:Eab; [reflexivity|].
  destruct (c1 b a) eqn:Eba; simpl; [discriminate|].
  destruct (H1 a b); congruence.
Qed.

Lemma float_desc_trans (a b c : option Q) :
  float_desc a b = true -> float_desc b c = true -> float_desc a c = true.
Proof.
  destruct a as [x|], b as [y|], c as [z|]; simpl; try congruence.
  rewrite !Qle_bool_iff. intros H1 H2. now apply Qle_trans with y.
Qed.

Lemma by_avg_rating_desc_trans (a b c : Movie.t) :
  by_avg_rating_desc a b = true -> by_avg_rating_desc b c = true ->
  by_avg_rating_desc a c = true.
Proof. apply float_desc_trans. Qed.

Lemma strongly_sorted_app {A : Type} (R : A -> A -> Prop) (l1 l2 : list A) :
  StronglySorted R (l1 ++ l2) ->
  forall x y, In x l1 -> In y l2 -> R x y.
Proof.
  induction l1 as [|a l1 IH]; simpl; intros Hs x y Hx Hy; [contradiction|].
  inversion Hs as [|? ? Hl Hall]; subst.
  destruct Hx as [->|Hx].
  - rewrite Forall_forall in Hall. apply Hall, in_or_app. now right.
  - now apply IH.
Qed.

(** The first [n] rows of an ordered table come before every row left
    out. *)
Lemma first_rows_on_top {A : Type} (leb : A -> A -> bool) (n : nat)
    (l : list A) :
  (forall a b, leb a b = true \/ leb b a = true) ->
  (forall a b c, leb a b = true -> leb b c = true -> leb a c = true) ->
  forall x y, In x (firstn n (order_by leb l)) -> In y l ->
              ~ In y (firstn n (order_by leb l)) -> leb x y = true.
Proof.
  intros Htot Htrans x y Hx Hy Hny.
  assert (S : StronglySorted (in_order leb)
                (firstn n (order_by leb l) ++ skipn n (order_by leb l))).
  { rewrite firstn_skipn. apply Sorted_StronglySorted.
    - intros a b c. unfold in_order. apply Htrans.
    - now apply order_by_sorted. }
  apply (strongly_sorted_app _ _ _ S x y Hx).
  apply (in_order_by _ leb) in Hy.
  rewrite <- (firstn_skipn n (order_by leb l)) in Hy.
  apply in_app_or in Hy. tauto.
Qed.

Lemma firstn_short {A : Type} (n : nat) (l : list A) :
  (length l <= n)%nat -> firstn n l = l.
Proof. intros H. now apply firstn_all2. Qed.

Lemma by_movie_id_asc_trans (a b c : Movie.t) :
  by_movie_id_asc a b = true -> by_movie_id_asc b c = true ->
  by_movie_id_asc a c = true.
Proof. unfold by_movie_id_asc. rewrite !Z.leb_le. lia. Qed.

Lemma lex_trans {A : Type} (c1 c2 : A -> A -> bool) :
  (forall a b, c1 a b = true \/ c1 b a = true) ->
  (forall a b c, c1 a b = true -> c1 b c = true -> c1 a c = true) ->
  (forall a b c, c2 a b = true -> c2 b c = true -> c2 a c = true) ->
  forall a b c, lex c1 c2 a b = true -> lex c1 c2 b c = true ->
                lex c1 c2 a c = true.
Proof.
  intros Htot Ht1 Ht2 a b c. unfold lex.
  pose proof (Ht1 a b c) as T1. pose proof (Ht1 b c a) as T2.
  pose proof (Ht1 c a b) as T3. pose proof (Ht2 a b c) as T4.
  pose proof (Htot a b) as O1. pose proof (Htot b c) as O2.
  pose proof (Htot a c) as O3.
  destruct (c1 a b), (c1 b a), (c1 b c), (c1 c b), (c1 a c), (c1 c a);
    simpl; intuition congruence.
Qed.

Lemma top_rated_order_total (a b : Movie.t) :
  lex by_avg_rating_desc by_movie_id_asc a b = true \/
  lex by_avg_rating_desc by_movie_id_asc b a = true.
Proof. apply lex_total, by_movie_id_asc_total. Qed.

Lemma top_rated_order_trans (a b c : Movie.t) :
  lex by_avg_rating_desc by_movie_id_asc a b = true ->
  lex by_avg_rating_desc by_movie_id_asc b c = true ->
  lex by_avg_rating_desc by_movie_id_asc a c = true.
Proof.
  apply lex_trans.
  - apply by_avg_rating_desc_total.
  - apply by_avg_rating_desc_trans.
  - apply by_movie_id_asc_trans.
Qed.

(** Among rows scanned in primary-key order, ordering by [avg_rating]
    alone already breaks ties by ascending id. *)
Lemma insert_row_in_pk_order (x : Movie.t) (l : list Movie.t) :
  (forall y, In y l -> Movie.movie_id x < Movie.movie_id y) ->
  insert_row by_avg_rating_desc x l =
  insert_row (lex by_avg_rating_desc by_movie_id_asc) x l.
Proof.
  induction l as [|y l IH]; intros Hx; simpl; [reflexivity|].
  assert (E : lex by_avg_rating_desc by_movie_id_asc x y
              = by_avg_rating_desc x y).
  { unfold lex, by_movie_id_asc.
    pose proof (Hx y (or_introl eq_refl)) as Hlt.
    destruct (by_avg_rating_desc_total x y) as [H|H]; rewrite H.
    - destruct (by_avg_rating_desc y x); simpl; [|reflexivity].
      apply Z.leb_le. lia.
    - simpl. destruct (by_avg_rating_desc x y); simpl; [|reflexivity].
      apply Z.leb_le. lia. }
  rewrite E. destruct (by_avg_rating_desc x y); [reflexivity|].
  f_equal. apply IH. intros z Hz. apply Hx. now right.
Qed.

Lemma order_by_in_pk_order (l : list Movie.t) :
  StronglySorted Z.lt (map Movie.movie_id l) ->
  order_by by_avg_rating_desc l =
  order_by (lex by_avg_rating_desc by_movie_id_asc) l.
Proof.
  induction l as [|x l IH]; simpl; intros Hs; [reflexivity|].
  inversion Hs as [|? ? Hl Hx]; subst.
  rewrite <- (IH Hl). apply insert_row_in_pk_order.
  intros y Hy. apply in_order_by in Hy.
  rewrite Forall_forall in Hx. apply Hx. now apply in_map.
Qed.

Lemma filter_in_pk_order (f : Movie.t -> bool) (l : list Movie.t) :
  StronglySorted Z.lt (map Movie.movie_id l) ->
  StronglySorted Z.lt (map Movie.movie_id (filter f l)).
Proof.
  induction l as [|x l IH]; simpl; intros Hs; [constructor|].
  inversion Hs as [|? ? Hl Hx]; subst.
  destruct (f x); simpl; [|now apply IH].
  constructor; [now apply IH|].
  rewrite Forall_forall in *. intros i Hi. apply Hx.
  apply in_map_iff in Hi. destruct Hi as (m & <- & Hm).
  apply filter_In in Hm. apply in_map. tauto.
Qed.

Lemma pk_scan_order_nodup (db : Db.t) :
  pk_scan_order db -> NoDup (map Movie.movie_id (Db.movies db)).
Proof.
  unfold pk_scan_order. induction 1 as [|i l Hl IH Hi]; constructor.
  - intros Hin. rewrite Forall_forall in Hi. specialize (Hi i Hin). lia.
  - exact IH.
Qed.

(** In primary-key order the query of the [except] branch returns the
    top-rated selection: by [avg_rating] descending, ties by ascending
    movie id. *)
Lemma movies_fallback_in_pk_order (user n : Z) (db : Db.t) :
  pk_scan_order db -> 0 <= n ->
  movies_fallback user n db = Some (topRated (ratedMovieIds user db) n db).
Proof.
  intros Hpk Hn. unfold movies_fallback, sql_limit, topRated.
  destruct (n <? 0) eqn:E; [apply Z.ltb_lt in E; lia|].
  now rewrite order_by_in_pk_order by (now apply filter_in_pk_order).
Qed.

Lemma topRated_lex_sorted (ex : list Z) (limit : Z) (db : Db.t) :
  Sorted (in_order (lex by_avg_rating_desc by_movie_id_asc))
         (topRated ex limit db).
Proof.
  unfold topRated. apply firstn_sorted, order_by_sorted.
  apply top_rated_order_total.
Qed.

Lemma strongly_sorted_weaken {A : Type} (R R' : A -> A -> Prop)
    (l : list A) :
  (forall a b, R a b -> R' a b) -> StronglySorted R l -> StronglySorted R' l.
Proof.
  intros HR. induction 1 as [|x l Hl IH Hx]; constructor; [exact IH|].
  rewrite Forall_forall in *. auto.
Qed.

Lemma topRated_order (ex : list Z) (limit : Z) (db : Db.t) :
  top_rated_order (topRated ex limit db).
Proof.
  unfold top_rated_order.
  apply (strongly_sorted_weaken
           (in_order (lex by_avg_rating_desc by_movie_id_asc))).
  - intros a b H. unfold in_order in H. split.
    + exact (lex_first _ _ _ _ by_avg_rating_desc_total H).
    + intros Hba. unfold lex in H. rewrite Hba in H. simpl in H.
      destruct (by_avg_rating_desc a b); simpl in H; [|discriminate].
      now apply Z.leb_le.
  - apply Sorted_StronglySorted; [|apply topRated_lex_sorted].
    intros a b c. unfold in_order. apply top_rated_order_trans.
Qed.

Lemma firstn_nodup {A : Type} (n : nat) (l : list A) :
  NoDup l -> NoDup (firstn n l).
Proof.
  intros H. rewrite <- (firstn_skipn n l) in H.
  now apply NoDup_app_remove_r in H.
Qed.

Lemma topRated_sorted (ex : list Z) (limit : Z) (db : Db.t) :
  Sorted (in_order by_avg_rating_desc) (topRated ex limit db).
Proof.
  unfold topRated. apply firstn_sorted.
  eapply sorted_weaken;
    [|apply order_by_sorted, lex_total, by_movie_id_asc_total].
  intros a b. apply lex_first, by_avg_rating_desc_total.
Qed.

Lemma movies_fallback_sorted (user limit : Z) (db : Db.t) (ms : list Movie.t) :
  movies_fallback user limit db = Some ms ->
  Sorted (in_order by_avg_rating_desc) ms.
Proof.
  unfold movies_fallback, sql_limit. destruct (limit <? 0); [discriminate|].
  intros [= <-]. apply firstn_sorted, order_by_sorted.
  apply by_avg_rating_desc_total.
Qed.

Lemma movies_fallback_unseen (user limit : Z) (db : Db.t) (ms : list Movie.t)
    (m : Movie.t) :
  movies_fallback user limit db = Some ms -> In m ms ->
  In m (Db.movies db) /\ unseen (ratedMovieIds user db) m = true.
Proof.
  unfold movies_fallback, sql_limit. destruct (limit <? 0); [discriminate|].
  intros [= <-] H. apply in_firstn, in_order_by, filter_In in H. exact H.
Qed.

(** ** The [/recommendations] view *)

Section RecommendationFacts.
Variable py_int : string -> option Z.

(** C1. Whatever the session user, the [limit] argument and the branch
    taken (procedure, or query of the [except] branch), no row that
    [/recommendations] renders has the id of a movie the user has
    rated. *)
Theorem recommendations_exclude_rated (env : Env) (user : Z)
    (limit : option string) (db : Db.t) :
  Forall (fun r => ~ In (rec_movie_id r) (ratedMovieIds user db))
         (rendered (fst (recommendations py_int env (Some user) limit db))).
Proof.
  unfold recommendations.
  destruct (match limit with None => Some 20 | Some s => py_int s end)
    as [n|]; [|constructor].
  destruct (proc_fails env).
  - destruct (movies_fallback user n db) as [ms|] eqn:F; [|constructor].
    simpl. apply Forall_forall. intros r Hr.
    apply in_map_iff in Hr. destruct Hr as (m & <- & Hm). simpl.
    apply unseen_not_in. now apply (movies_fallback_unseen _ _ _ _ _ F).
  - simpl. apply Forall_forall. intros r Hr.
    apply select_after_generate in Hr. destruct Hr as (p & Hp & -> & _).
    apply unseen_not_in. now apply (generate_unseen user n db).
Qed.


End RecommendationFacts.

(** ** A user without ratings *)

Lemma filter_primary_key (ms : list Movie.t) (m : Movie.t) :
  NoDup (map Movie.movie_id ms) -> In m ms ->
  filter (fun m' => Movie.movie_id m =? Movie.movie_id m') ms = [m].
Proof.
  induction ms as [|x ms IH]; simpl; intros Hnd Hin; [contradiction|].
  inversion Hnd as [|? ? Hx Hnd']; subst.
  destruct Hin as [->|Hin].
  - rewrite Z.eqb_refl. f_equal. apply filter_none. intros y Hy.
    apply Z.eqb_neq. intros E. apply Hx. rewrite E. now apply in_map.
  - destruct (Movie.movie_id m =? Movie.movie_id x) eqn:E.
    + apply Z.eqb_eq in E. exfalso. apply Hx. rewrite <- E. now apply in_map.
    + now apply IH.
Qed.

Lemma sorted_map {A B : Type} (f : A -> B) (R : A -> A -> Prop)
    (R' : B -> B -> Prop) (l : list A) :
  (forall a b, R a b -> R' (f a) (f b)) -> Sorted R l -> Sorted R' (map f l).
Proof.
  intros H. induction 1 as [|x l Hl IH Hhd]; simpl; constructor; [exact IH|].
  destruct Hhd; simpl; constructor. now apply H.
Qed.

Lemma join_fallback_rows (user : Z) (ms : list Movie.t) (db : Db.t) :
  NoDup (map Movie.movie_id (Db.movies db)) ->
  (forall m, In m ms -> In m (Db.movies db)) ->
  join_movies user
    (Db.set_recommendations
       (replaceForUser user (map (fun m => (m, fallback_reason)) ms)
                       (Db.recommendations db)) db)
  = map (fallback_row user) ms.
Proof.
  intros Hnd Hin. unfold join_movies, replaceForUser; simpl.
  rewrite flat_map_app, filter_app, map_map; simpl.
  rewrite filter_none, app_nil_l.
  - induction ms as [|m ms IH]; simpl; [reflexivity|].
    rewrite (filter_primary_key _ m Hnd (Hin m (or_introl eq_refl))); simpl.
    rewrite Z.eqb_refl. unfold fallback_row at 2. f_equal.
    apply IH. intros m' Hm'. apply Hin. now right.
  - intros [c m] H. apply in_flat_map in H. destruct H as (c' & Hc' & H).
    apply in_map_iff in H. destruct H as (m' & [= <- <-] & _).
    apply filter_In in Hc'. destruct Hc' as [_ N]. simpl.
    now apply negb_true_iff in N.
Qed.

Lemma ratedMovieIds_none (user : Z) (db : Db.t) :
  ratings_of_user user db = [] -> ratedMovieIds user db = [].
Proof. unfold ratedMovieIds. now intros ->. Qed.

Section NoRatingFacts.
Variable py_int : string -> option Z.

Lemma unrated_is_catalog (user : Z) (db : Db.t) :
  ratings_of_user user db = [] ->
  filter (unseen (ratedMovieIds user db)) (Db.movies db) = Db.movies db.
Proof.
  intros H. rewrite (ratedMovieIds_none _ _ H). now apply filter_all.
Qed.

(** The first [n] rows of the catalog under a total, transitive
    ordering: as many as the limit and the catalog allow, each of the
    catalog and none twice, and none left out may come before one of
    them. *)
Lemma top_of_catalog (leb : Movie.t -> Movie.t -> bool) (n : nat)
    (l : list Movie.t) :
  (forall a b, leb a b = true \/ leb b a = true) ->
  (forall a b c, leb a b = true -> leb b c = true -> leb a c = true) ->
  NoDup (map Movie.movie_id l) ->
  let ms := firstn n (order_by leb l) in
  length ms = Nat.min n (length l) /\
  (forall m, In m ms -> In m l) /\
  NoDup (map Movie.movie_id ms) /\
  (forall m m', In m ms -> In m' l -> ~ In m' ms -> leb m m' = true).
Proof.
  intros Htot Htrans Hnd ms. subst ms. split; [|split; [|split]].
  - now rewrite length_firstn, order_by_length.
  - intros m Hm. now apply in_firstn, in_order_by in Hm.
  - rewrite <- firstn_map. apply firstn_nodup.
    apply (Permutation_NoDup (l := map Movie.movie_id l)); [|exact Hnd].
    apply Permutation_map, order_by_perm.
  - intros m m'. now apply first_rows_on_top.
Qed.

(** C2. For a user without ratings and a positive limit,
    [/recommendations] renders the fallback top-rated list, in either
    branch (the query of the [except] branch, or [topRated] inside the
    procedure): one row per movie and in the same order, every reason
    ["Top rated fallback"]; the movies are as many as the limit and the
    catalog allow, each a catalog movie and none twice, by descending
    [avg_rating], and no catalog movie left out is rated above one that
    is listed.  In primary-key order the list is [topRated] in both
    branches. *)
Theorem recommendations_without_ratings (env : Env) (user : Z)
    (limit : string) (n : Z) (db : Db.t) :
  py_int limit = Some n -> 0 < n ->
  ratings_of_user user db = [] ->
  NoDup (map Movie.movie_id (Db.movies db)) ->
  exists recs ms,
    fst (recommendations py_int env (Some user) (Some limit) db)
    = Render "recommendations.html" recs /\
    (if proc_fails env
     then movies_fallback user n db = Some ms
     else topRated (ratedMovieIds user db) n db = ms) /\
    map rec_movie_id recs = map Movie.movie_id ms /\
    Z.of_nat (length recs) <= n /\
    Sorted (in_order by_avg_rating_desc) ms /\
    Forall (fun r => rec_reason r = "Top rated fallback") recs /\
    length ms = Nat.min (Z.to_nat n) (length (Db.movies db)) /\
    (forall m, In m ms -> In m (Db.movies db)) /\
    NoDup (map rec_movie_id recs) /\
    (forall m m', In m ms -> In m' (Db.movies db) -> ~ In m' ms ->
                  by_avg_rating_desc m m' = true) /\
    (pk_scan_order db ->
     ms = topRated (ratedMovieIds user db) n db /\ top_rated_order ms).
Proof.
  intros Hn Hpos Hnone Hnd. unfold recommendations. rewrite Hn.
  pose proof (unrated_is_catalog user db Hnone) as Hall.
  destruct (proc_fails env).
  - assert (F : movies_fallback user n db =
                Some (firstn (Z.to_nat n)
                        (order_by by_avg_rating_desc (Db.movies db)))).
    { unfold movies_fallback, sql_limit. rewrite Hall.
      destruct (n <? 0) eqn:E; [apply Z.ltb_lt in E; lia|reflexivity]. }
    rewrite F.
    destruct (top_of_catalog by_avg_rating_desc (Z.to_nat n) (Db.movies db)
                by_avg_rating_desc_total by_avg_rating_desc_trans Hnd)
      as (Hlen & Hin & Hno & Htop).
    set (ms := firstn (Z.to_nat n)
                 (order_by by_avg_rating_desc (Db.movies db))) in *.
    exists (map (fallback_rec user) ms), ms. cbn [fst].
    assert (Hids : map rec_movie_id (map (fallback_rec user) ms)
                   = map Movie.movie_id ms) by now rewrite map_map.
    split; [reflexivity|]. split; [reflexivity|]. split; [exact Hids|].
    split; [rewrite length_map, Hlen; lia|].
    split; [apply (movies_fallback_sorted user n db), F|].
    split.
    { apply Forall_forall. intros r Hr. apply in_map_iff in Hr.
      now destruct Hr as (m & <- & _). }
    split; [exact Hlen|]. split; [exact Hin|].
    split; [now rewrite Hids|]. split; [exact Htop|].
    intros Hpk.
    assert (E : Some ms = Some (topRated (ratedMovieIds user db) n db))
      by (rewrite <- F; apply movies_fallback_in_pk_order; [exact Hpk|lia]).
    injection E as E. split; [exact E|]. rewrite E. apply topRated_order.
  - set (ms := topRated (ratedMovieIds user db) n db).
    assert (J : join_movies user (generate_recommendations_for_user_v2 user n db)
                = map (fallback_row user) ms).
    { unfold generate_recommendations_for_user_v2, generate. rewrite Hnone.
      apply join_fallback_rows; [exact Hnd|].
      intros m Hm. now apply topRated_in in Hm. }
    destruct (top_of_catalog (lex by_avg_rating_desc by_movie_id_asc)
                (Z.to_nat n) (Db.movies db)
                top_rated_order_total top_rated_order_trans Hnd)
      as (Hlen & Hin & Hno & Htop).
    assert (Ems : ms = firstn (Z.to_nat n)
                         (order_by (lex by_avg_rating_desc by_movie_id_asc)
                                   (Db.movies db)))
      by (unfold ms, topRated; now rewrite Hall).
    rewrite <- Ems in Hlen, Hin, Hno, Htop.
    exists (map row_rec (map (fallback_row user) ms)), ms. cbn [fst].
    assert (Hids : map rec_movie_id (map row_rec (map (fallback_row user) ms))
                   = map Movie.movie_id ms) by (rewrite !map_map; reflexivity).
    split.
    { unfold select_recommendations. rewrite J.
      rewrite order_by_fixes_sorted; [reflexivity|].
      apply (sorted_map (fallback_row user) (in_order by_avg_rating_desc));
        [auto|apply topRated_sorted]. }
    split; [reflexivity|]. split; [exact Hids|].
    split; [rewrite !length_map, Hlen; lia|].
    split; [apply topRated_sorted|].
    split.
    { apply Forall_forall. intros r Hr. rewrite map_map in Hr.
      apply in_map_iff in Hr. now destruct Hr as (m & <- & _). }
    split; [exact Hlen|]. split; [exact Hin|].
    split; [now rewrite Hids|]. split.
    { intros m m' Hm Hm' Hout.
      exact (lex_first _ _ _ _ by_avg_rating_desc_total (Htop m m' Hm Hm' Hout)). }
    intros _. split; [reflexivity|apply topRated_order].
Qed.

End NoRatingFacts.

(** ** The limit of each call site *)

Lemma rows_of_user_generated (uid limit : Z) (db : Db.t) :
  rows_of_user uid (generate_recommendations_for_user_v2 uid limit db) =
  map (fun p => Recommendation.mk uid (Movie.movie_id (fst p)) (snd p))
      (generate uid limit db).
Proof.
  unfold rows_of_user, generate_recommendations_for_user_v2, replaceForUser.
  simpl. rewrite filter_app. rewrite filter_none.
  - simpl. apply filter_all. intros c Hc. apply in_map_iff in Hc.
    destruct Hc as (p & <- & _). simpl. apply Z.eqb_refl.
  - intros c Hc. apply filter_In in Hc. destruct Hc as [_ N].
    now apply negb_true_iff in N.
Qed.

Section LimitFacts.
Variable py_int : string -> option Z.
Variable py_float : string -> option pyfloat.
Hypothesis py_int_empty : py_int "" = None.
Hypothesis py_float_empty : py_float "" = None.

(** C9, amended.  [/recommendations] without a [limit] argument behaves
    as with [limit=20].  The regeneration that [/rate] triggers after a
    write does not use that default: it calls the procedure with limit
    15, on the store as the aggregate step left it, and so stores at
    most 15 rows for the user. *)
Theorem limit_of_each_call_site (env : Env) (session : option Z)
    (twenty : string) (user : Z) (movie_id rating_val : string)
    (mid : Z) (q : Q) (db db1 : Db.t) :
  py_int twenty = Some 20 ->
  py_int movie_id = Some mid ->
  py_float rating_val = Some (Finite q) -> (0 <= q /\ q <= 5)%Q ->
  upsertRating user mid q (now env) db = Some db1 ->
  proc_fails env = false ->
  let out :=
    rate py_int py_float env (Some user) (Some movie_id) (Some rating_val) db in
  recommendations py_int env session None db =
  recommendations py_int env session (Some twenty) db /\
  snd out =
  generate_recommendations_for_user_v2 user 15
    (if aggregate_fails env then db1 else update_movie_aggregates mid db1) /\
  (length (rows_of_user user (snd out)) <= 15)%nat.
Proof.
  intros H20 Hi Hf Hq H1 Hp out.
  split; [unfold recommendations; now rewrite H20|].
  assert (E : snd out =
              generate_recommendations_for_user_v2 user 15
                (if aggregate_fails env then db1
                 else update_movie_aggregates mid db1)).
  { subst out.
    rewrite (rate_parsed py_int py_float py_int_empty py_float_empty
               _ _ _ _ _ _ _ Hi Hf).
    assert (R : in_range (Finite q) = Some q) by (apply in_range_spec; auto).
    rewrite R. unfold rate_write. now rewrite H1, Hp. }
  split; [exact E|].
  rewrite E, rows_of_user_generated, length_map.
  match goal with
  | |- (length (generate ?u 15 ?d) <= 15)%nat =>
      pose proof (generate_length u 15 d)
  end. lia.
Qed.

End LimitFacts.

(** * Concrete runs *)

Ltac in_0_5 := split; unfold Qle; simpl; lia.

Ltac no_dup :=
  repeat (constructor; [simpl; intuition discriminate|]); constructor.

(** The request of C4 at rating ["5.5"]: 400, store untouched. *)
Lemma rate_rejects_invalid_value_run :
  snd (Run.post_rate Run.calm "7" "5.5" Run.fresh) = Run.fresh /\
  exists msg, fst (Run.post_rate Run.calm "7" "5.5" Run.fresh)
              = JsonError 400 msg.
Proof.
  apply (rate_rejects_invalid_value int_literal float_literal Run.calm
           (Some 1) (Some "7") "5.5" Run.fresh).
  right. exists (Finite (11 # 2)). split; [reflexivity|].
  simpl. intros [_ H]. unfold Qle in H. simpl in H. lia.
Defined.

(** The round trip at rating ["4.5"]. *)
Lemma rate_then_getRating_run :
  fst (Run.post_rate Run.calm "7" "4.5" Run.fresh) = JsonOk /\
  option_map Rating.rating
    (getRating 1 7 (snd (Run.post_rate Run.calm "7" "4.5" Run.fresh)))
  = Some (9 # 2).
Proof.
  apply (rate_then_getRating int_literal float_literal eq_refl eq_refl
           Run.calm 1 "7" "4.5" 7 (9 # 2) Run.fresh);
    [reflexivity|reflexivity|in_0_5|right; split; now left].
Defined.

(** C6 with both guarded statements raising. *)
Lemma rate_survives_side_effect_failure_run :
  fst (Run.post_rate Run.both_down "7" "4.5" Run.fresh) = JsonOk /\
  Db.ratings (snd (Run.post_rate Run.both_down "7" "4.5" Run.fresh))
  = Db.ratings Run.written /\
  option_map Rating.rating
    (getRating 1 7 (snd (Run.post_rate Run.both_down "7" "4.5" Run.fresh)))
  = Some (9 # 2).
Proof.
  apply (rate_survives_side_effect_failure int_literal float_literal
           eq_refl eq_refl 0 true true 1 "7" "4.5" 7 (9 # 2)
           Run.fresh Run.written);
    [reflexivity|reflexivity|in_0_5|reflexivity].
Defined.

(** C10, as stated, fails: a rating for movie id 99, which has no
    [movies] row, is not reported as a success and creates no row. *)
Lemma rate_unknown_movie_fails :
  Run.post_rate Run.calm "99" "3" Run.fresh
  = (Unhandled "IntegrityError", Run.fresh).
Proof. reflexivity. Qed.

Lemma rate_movie_existence_run :
  let out := Run.post_rate Run.calm "7" "3" Run.fresh in
  (forall msg, fst out <> JsonError 404 msg) /\
  fst out = JsonOk /\ getRating 1 7 (snd out) <> None.
Proof.
  assert (Hq : (0 <= 3 /\ 3 <= 5)%Q) by in_0_5.
  assert (Hu : user_exists 1 Run.fresh) by now left.
  assert (Hm : movie_exists 7 Run.fresh) by now left.
  destruct (rate_movie_existence int_literal float_literal eq_refl eq_refl
              Run.calm 1 "7" "3" 7 3 Run.fresh eq_refl eq_refl Hq Hu)
    as (H404 & Hyes & _).
  split; [exact H404|exact (Hyes Hm)].
Defined.

(** C3, as stated, fails: the write succeeds, the aggregate update
    raises, and movie 7 keeps [ratings_count] 0 with one rating row. *)
Lemma rate_leaves_stale_aggregates :
  let out := Run.post_rate Run.aggregate_down "7" "4" Run.fresh in
  fst out = JsonOk /\
  sql_count (ratings_of_movie 7 (snd out)) = 1 /\
  map Movie.ratings_count (Db.movies (snd out)) = [Some 0] /\
  ~ aggregates_current 7 (snd out).
Proof.
  repeat split; try reflexivity.
  intros H. destruct (H (Run.film 7 "Drama" 0 0)) as [Hc _];
    [now left|reflexivity|discriminate].
Qed.

Lemma rate_recomputes_aggregates_run :
  let out := Run.post_rate Run.calm "7" "4.5" Run.fresh in
  (forall m, In m (Db.movies (snd out)) -> Movie.movie_id m = 7 ->
     Movie.ratings_count m = Some (sql_count (ratings_of_movie 7 (snd out)))
     /\ Movie.avg_rating m =
        Some (match sql_avg (map Rating.rating (ratings_of_movie 7 (snd out)))
              with
              | Some mean => sql_round2 mean
              | None => 0%Q
              end)) /\
  update_movie_aggregates 7 (snd out) = snd out /\
  (forall db0,
     update_movie_aggregates 7 (update_movie_aggregates 7 db0) =
     update_movie_aggregates 7 db0).
Proof.
  apply (rate_recomputes_aggregates int_literal float_literal Run.calm
           (Some 1) "7" (Some "4.5") 7 Run.fresh);
    reflexivity.
Defined.

(** C5, as stated, fails: 4.0 then 2.0 by alice for movie 7, the second
    aggregate update raising: one row, value 2, and an [avg_rating]
    still 4.00. *)
Lemma rate_twice_stale_average :
  let out :=
    rate_each int_literal float_literal
      [(Run.calm, "4.0"); (Run.aggregate_down, "2.0")] 1 "7" Run.fresh in
  fst out = [JsonOk; JsonOk] /\
  map Rating.rating (rows_of_pair 1 7 (snd out)) = [2%Q] /\
  map Movie.avg_rating (Db.movies (snd out)) = [Some (Qmake 400 100)] /\
  ~ aggregates_current 7 (snd out).
Proof.
  repeat split; try reflexivity.
  intros H. destruct (H (Run.film 7 "Drama" (Qmake 400 100) 1)) as [_ Ha];
    [now left|reflexivity|discriminate].
Qed.

Lemma rate_keeps_one_row_per_pair_run :
  let out :=
    rate_each int_literal float_literal
      [(Run.aggregate_down, "4.0"); (Run.calm, "2.0")] 1 "7" Run.fresh in
  (length (rows_of_pair 1 7 (snd out)) <= 1)%nat /\
  Forall (eq JsonOk) (fst out) /\
  (exists r, rows_of_pair 1 7 (snd out) = [r] /\ Rating.rating r = 2%Q) /\
  length (Db.ratings (snd out)) = 1%nat /\
  aggregates_current 7 (snd out).
Proof.
  assert (Hall : forall (e : Env) v,
             In (e, v) [(Run.aggregate_down, "4.0")] ->
             in_range_field float_literal v).
  { intros e v [[= <- <-]|[]]. exists 4%Q. split; [reflexivity|in_0_5]. }
  assert (Hq : (0 <= 2 /\ 2 <= 5)%Q) by in_0_5.
  assert (Hone : (length (rows_of_pair 1 7 Run.fresh) <= 1)%nat)
    by (simpl; lia).
  assert (W : writable 1 7 Run.fresh) by (right; split; now left).
  destruct (rate_keeps_one_row_per_pair int_literal float_literal
              eq_refl eq_refl [(Run.aggregate_down, "4.0")] Run.calm "2.0" 2
              1 "7" 7 Run.fresh eq_refl Hall eq_refl Hq Hone) as [B H].
  destruct (H W) as (Hok & Hrow & Hlen & Hagg).
  repeat (split; [assumption|]). exact (Hagg eq_refl).
Defined.

(** C1 on the store left by a rating of movie 17 among seventeen. *)
Lemma recommendations_exclude_rated_run :
  let db := snd (Run.post_rate Run.calm "17" "5" Run.seventeen) in
  ratedMovieIds 1 db = [17] /\
  length (rendered (fst (Run.get_recommendations Run.calm None db))) = 16%nat /\
  Forall (fun r => ~ In (rec_movie_id r) (ratedMovieIds 1 db))
         (rendered (fst (Run.get_recommendations Run.calm None db))).
Proof.
  split; [reflexivity|]. split; [reflexivity|].
  apply (recommendations_exclude_rated int_literal Run.calm 1 None
           (snd (Run.post_rate Run.calm "17" "5" Run.seventeen))).
Defined.

(** C2 with limit 2 on three movies, through the procedure and
    through the [except] branch: movies 1 and 2 either way. *)
Lemma recommendations_without_ratings_run :
  (exists recs ms,
     fst (Run.get_recommendations Run.calm (Some "2") Run.tied)
     = Render "recommendations.html" recs /\
     map rec_movie_id recs = map Movie.movie_id ms /\
     ms = topRated (ratedMovieIds 1 Run.tied) 2 Run.tied /\
     length ms = 2%nat /\
     Forall (fun r => rec_reason r = "Top rated fallback") recs) /\
  (exists recs ms,
     fst (Run.get_recommendations Run.proc_down (Some "2") Run.tied)
     = Render "recommendations.html" recs /\
     map rec_movie_id recs = map Movie.movie_id ms /\
     movies_fallback 1 2 Run.tied = Some ms /\
     ms = topRated (ratedMovieIds 1 Run.tied) 2 Run.tied /\
     length ms = 2%nat /\
     Forall (fun r => rec_reason r = "Top rated fallback") recs) /\
  map rec_movie_id
      (rendered (fst (Run.get_recommendations Run.proc_down (Some "2")
                        Run.tied))) = [1; 2].
Proof.
  assert (Hnd : NoDup (map Movie.movie_id (Db.movies Run.tied))) by no_dup.
  assert (Hpk : pk_scan_order Run.tied)
    by (unfold pk_scan_order; simpl; repeat constructor).
  assert (Hpos : 0 < 2) by lia.
  split; [|split; [|reflexivity]].
  - destruct (recommendations_without_ratings int_literal Run.calm 1 "2" 2
                Run.tied eq_refl Hpos eq_refl Hnd)
      as (recs & ms & H1 & H2 & H3 & _ & _ & H6 & H7 & _ & _ & _ & H11).
    exists recs, ms. destruct (H11 Hpk) as [E _].
    repeat (split; [assumption|]). exact H6.
  - destruct (recommendations_without_ratings int_literal Run.proc_down 1 "2"
                2 Run.tied eq_refl Hpos eq_refl Hnd)
      as (recs & ms & H1 & H2 & H3 & _ & _ & H6 & H7 & _ & _ & _ & H11).
    exists recs, ms. destruct (H11 Hpk) as [E _].
    repeat (split; [assumption|]). exact H6.
Defined.


(** C9, as stated, fails: after alice rates movie 17 of seventeen
    dramas, [/rate] has stored 15 rows for her; the procedure with limit
    20 on the same store stores 16. *)
Lemma rate_regenerates_with_limit_15 :
  let out := Run.post_rate Run.calm "17" "5" Run.seventeen in
  fst out = JsonOk /\
  length (rows_of_user 1 (snd out)) = 15%nat /\
  length (rows_of_user 1 (generate_recommendations_for_user_v2 1 20 (snd out)))
  = 16%nat /\
  snd out <> generate_recommendations_for_user_v2 1 20 (snd out).
Proof.
  split; [reflexivity|]. split; [reflexivity|]. split; [reflexivity|].
  intros E.
  apply (f_equal (fun db => length (rows_of_user 1 db))) in E.
  vm_compute in E. discriminate.
Qed.

Lemma limit_of_each_call_site_run :
  let out := Run.post_rate Run.calm "7" "4.5" Run.fresh in
  Run.get_recommendations Run.calm None Run.fresh =
  Run.get_recommendations Run.calm (Some "20") Run.fresh /\
  snd out =
  generate_recommendations_for_user_v2 1 15
    (if aggregate_fails Run.calm then Run.written
     else update_movie_aggregates 7 Run.written) /\
  (length (rows_of_user 1 (snd out)) <= 15)%nat.
Proof.
  apply (limit_of_each_call_site int_literal float_literal eq_refl eq_refl
           Run.calm (Some 1) "20" 1 "7" "4.5" 7 (9 # 2)
           Run.fresh Run.written);
    [reflexivity|reflexivity|reflexivity|in_0_5|reflexivity|reflexivity].
Defined.

(** * The other views *)

(** ** Top of an ordered table *)

(** ** The catalog pages *)

Lemma distinct_in {A : Type} (same : A -> A -> bool) (l : list A) (x : A) :
  In x (distinct same l) -> In x l.
Proof.
  induction l as [|y l IH]; simpl; [tauto|].
  destruct (existsb (same y) l); simpl; intuition.
Qed.

Lemma distinct_pairwise {A : Type} (same : A -> A -> bool) (l : list A) :
  ForallOrdPairs (fun a b => same a b = false) (distinct same l).
Proof.
  induction l as [|x l IH]; simpl; [constructor|].
  destruct (existsb (same x) l) eqn:E; [exact IH|].
  constructor; [|exact IH].
  apply Forall_forall. intros y Hy. apply distinct_in in Hy.
  destruct (same x y) eqn:S; [|reflexivity].
  assert (T : existsb (same x) l = true)
    by (apply existsb_exists; exists y; auto).
  congruence.
Qed.

Lemma distinct_represents {A : Type} (same : A -> A -> bool) (l : list A) :
  (forall a, same a a = true) ->
  (forall a b c, same a b = true -> same b c = true -> same a c = true) ->
  forall x, In x l -> exists y, In y (distinct same l) /\ same x y = true.
Proof.
  intros Hrefl Htrans. induction l as [|z l IH]; simpl; [tauto|].
  intros x [->|Hx].
  - destruct (existsb (same x) l) eqn:E.
    + apply existsb_exists in E. destruct E as (w & Hw & Hxw).
      destruct (IH w Hw) as (y & Hy & Hwy). exists y. split; [exact Hy|].
      now apply Htrans with w.
    + exists x. split; [now left|apply Hrefl].
  - destruct (IH x Hx) as (y & Hy & Hxy).
    exists y. split; [|exact Hxy].
    destruct (existsb (same z) l); [exact Hy|now right].
Qed.

Lemma truthy_genres_in (gs : list (option string)) (g : string) :
  In g (truthy_genres gs) <-> In (Some g) gs /\ g <> "".
Proof.
  unfold truthy_genres. rewrite in_flat_map. split.
  - intros ([s|] & Hin & H); [|contradiction].
    destruct (String.eqb_spec s ""); [contradiction|].
    destruct H as [->|[]]. auto.
  - intros [Hin Hne]. exists (Some g). split; [exact Hin|].
    destruct (String.eqb_spec g ""); [contradiction|now left].
Qed.

Lemma truthy_genres_pairwise (collate : string -> string -> bool)
    (gs : list (option string)) :
  ForallOrdPairs (fun a b => same_genre collate a b = false) gs ->
  ForallOrdPairs (fun a b => collate a b = false) (truthy_genres gs).
Proof.
  induction 1 as [|x l Hx Hl IH]; [constructor|].
  unfold truthy_genres in *. simpl.
  destruct x as [s|]; [|exact IH].
  destruct (String.eqb s ""); [exact IH|]. simpl.
  constructor; [|exact IH].
  apply Forall_forall. intros y Hy.
  apply (truthy_genres_in l y) in Hy. destruct Hy as [Hy _].
  rewrite Forall_forall in Hx. exact (Hx (Some y) Hy).
Qed.

Section CatalogFacts.
Variable collate : string -> string -> bool.

(** X1. The home page shows at most twelve movies, all of the catalog, in
    non-increasing [avg_rating] order; no movie left out is rated above
    one that is shown; and a catalog of at most twelve movies is shown
    whole. *)
Theorem home_shows_the_top_twelve (db : Db.t) :
  let shown := page_movies (home collate db) in
  (length shown <= 12)%nat /\
  (forall m, In m shown -> In m (Db.movies db)) /\
  Sorted (in_order by_avg_rating_desc) shown /\
  (forall m m', In m shown -> In m' (Db.movies db) -> ~ In m' shown ->
                by_avg_rating_desc m m' = true) /\
  ((length (Db.movies db) <= 12)%nat -> Permutation shown (Db.movies db)).
Proof.
  cbv beta iota zeta delta [home page_movies].
  split; [apply firstn_length_le|]. split; [|split; [|split]].
  - intros m Hm. now apply in_firstn, in_order_by in Hm.
  - apply firstn_sorted, order_by_sorted, by_avg_rating_desc_total.
  - intros m m'. apply first_rows_on_top.
    + apply by_avg_rating_desc_total.
    + apply by_avg_rating_desc_trans.
  - intros Hlen. rewrite firstn_short by (now rewrite order_by_length).
    apply Permutation_sym, order_by_perm.
Qed.

(** X2. The genre list of the catalog pages: every entry is the non-empty
    genre of some movie, and no two entries are equal under the
    collation. *)
Theorem genres_are_distinct_catalog_genres (db : Db.t) :
  (forall g, In g (genres collate db) ->
     g <> "" /\ exists m, In m (Db.movies db) /\ Movie.genre m = Some g) /\
  ForallOrdPairs (fun a b => collate a b = false) (genres collate db).
Proof.
  unfold genres. split.
  - intros g Hg. apply truthy_genres_in in Hg. destruct Hg as [Hin Hne].
    split; [exact Hne|]. apply distinct_in, in_map_iff in Hin.
    destruct Hin as (m & E & Hm). eauto.
  - apply truthy_genres_pairwise, distinct_pairwise.
Qed.

(** X3. [/movies] shows exactly the movies of the selected genre, and the
    whole catalog when no genre or the empty genre is selected, in
    non-increasing [avg_rating] order. *)
Theorem movies_page_is_the_genre (genre : option string) (db : Db.t) :
  let shown := page_movies (movies collate genre db) in
  Sorted (in_order by_avg_rating_desc) shown /\
  match genre with
  | Some g =>
      if String.eqb g "" then Permutation shown (Db.movies db)
      else Permutation shown (filter (has_genre collate g) (Db.movies db)) /\
           forall m, In m shown <->
                     In m (Db.movies db) /\
                     exists g', Movie.genre m = Some g' /\ collate g' g = true
  | None => Permutation shown (Db.movies db)
  end.
Proof.
  simpl. split; [apply order_by_sorted, by_avg_rating_desc_total|].
  destruct genre as [g|]; [|apply Permutation_sym, order_by_perm].
  destruct (String.eqb g ""); [apply Permutation_sym, order_by_perm|].
  split; [apply Permutation_sym, order_by_perm|].
  intros m. rewrite in_order_by, filter_In. unfold has_genre.
  split.
  - intros [Hm Hg]. split; [exact Hm|].
    destruct (Movie.genre m) as [g'|]; [eauto|discriminate].
  - intros [Hm (g' & E & Hg)]. split; [exact Hm|]. now rewrite E.
Qed.

Hypothesis collate_refl : forall a, collate a a = true.

Lemma genre_page_nonempty (db : Db.t) (g : string) :
  In g (genres collate db) ->
  page_movies (movies collate (Some g) db) <> [].
Proof.
  intros Hg. apply truthy_genres_in in Hg. destruct Hg as [Hin Hne].
  apply distinct_in, in_map_iff in Hin. destruct Hin as (m & E & Hm).
  simpl. destruct (String.eqb_spec g ""); [contradiction|].
  assert (Hs : In m (order_by by_avg_rating_desc
                       (filter (has_genre collate g) (Db.movies db)))).
  { apply in_order_by, filter_In. split; [exact Hm|].
    unfold has_genre. rewrite E. apply collate_refl. }
  intros N. rewrite N in Hs. contradiction.
Qed.

(** X4. Every genre the catalog pages offer leads to a non-empty [/movies]
    page. *)
Theorem offered_genre_has_movies (db : Db.t) (g : string) :
  In g (page_genres (home collate db)) ->
  page_genres (movies collate (Some g) db) = page_genres (home collate db) /\
  page_movies (movies collate (Some g) db) <> [].
Proof.
  intros Hg. split; [reflexivity|]. now apply genre_page_nonempty.
Qed.

Hypothesis collate_trans :
  forall a b c, collate a b = true -> collate b c = true -> collate a c = true.

(** X5. Every genre of the catalog that the collation tells from the empty
    string is offered, up to the collation, and its page is not
    empty. *)
Theorem catalog_genre_is_offered (db : Db.t) (m : Movie.t) (g : string) :
  In m (Db.movies db) -> Movie.genre m = Some g -> collate g "" = false ->
  exists g', In g' (genres collate db) /\ collate g g' = true /\
             In m (page_movies (movies collate (Some g') db)).
Proof.
  intros Hm E Hne.
  destruct (distinct_represents (same_genre collate)
              (map Movie.genre (Db.movies db))) with (x := Some g)
    as (y & Hy & Hxy).
  - intros [a|]; simpl; auto.
  - intros [a|] [b|] [c|]; simpl; try congruence. apply collate_trans.
  - rewrite <- E. now apply in_map.
  - destruct y as [g'|]; [|discriminate]. simpl in Hxy.
    assert (Hg'' : g' <> "") by (intros ->; congruence).
    exists g'. split; [|split; [exact Hxy|]].
    + unfold genres. apply truthy_genres_in. now split.
    + simpl. destruct (String.eqb_spec g' ""); [contradiction|].
      apply in_order_by, filter_In. split; [exact Hm|].
      unfold has_genre. now rewrite E.
Qed.

End CatalogFacts.

(** ** The movie API and the aggregates *)

Lemma getMovie_some (id : Z) (db : Db.t) (m : Movie.t) :
  getMovie id db = Some m -> In m (Db.movies db) /\ Movie.movie_id m = id.
Proof.
  unfold getMovie. intros H. apply find_some in H.
  destruct H as [Hin E]. split; [exact Hin|now apply Z.eqb_eq].
Qed.

Lemma getMovie_none (id : Z) (db : Db.t) :
  getMovie id db = None <-> ~ movie_exists id db.
Proof.
  unfold getMovie, movie_exists. split.
  - intros H Hin. apply in_map_iff in Hin. destruct Hin as (m & E & Hm).
    pose proof (find_none _ _ H m Hm) as N. simpl in N.
    apply Z.eqb_neq in N. contradiction.
  - intros Hn. destruct (find _ (Db.movies db)) as [m|] eqn:F; [|reflexivity].
    apply find_some in F. destruct F as [Hin E]. apply Z.eqb_eq in E.
    exfalso. apply Hn. rewrite <- E. now apply in_map.
Qed.

(** X6. The API answers 404 exactly for the ids without a [movies] row;
    otherwise the body carries the requested id and the columns of a row
    with that id, with a number (0 for [NULL]) as [avg_rating]. *)
Theorem api_movie_lookup (id : Z) (db : Db.t) :
  (api_movie id db = ApiError 404 "not found" <-> ~ movie_exists id db) /\
  (movie_exists id db ->
   exists m, In m (Db.movies db) /\ Movie.movie_id m = id /\
     api_movie id db =
     ApiMovie (mkMovieJson id (Movie.title m) (Movie.genre m)
                 (avg_or_zero (Movie.avg_rating m)) (Movie.ratings_count m)
                 (Movie.poster_path m))).
Proof.
  unfold api_movie. split.
  - rewrite <- getMovie_none. destruct (getMovie id db); split; congruence.
  - intros He. destruct (getMovie id db) as [m|] eqn:G.
    + destruct (getMovie_some _ _ _ G) as [Hin <-]. eauto.
    + apply getMovie_none in G. contradiction.
Qed.

Lemma sql_sum_bounds (l : list Q) :
  Forall (fun q => (0 <= q /\ q <= 5)%Q) l ->
  (0 <= sql_sum l /\ sql_sum l <= 5 * inject_Z (sql_count l))%Q.
Proof.
  unfold sql_count. induction 1 as [|q l [Hq0 Hq5] Hl [IH0 IH5]].
  - simpl. split; [apply Qle_refl|]. unfold Qle; simpl; lia.
  - cbn [sql_sum fold_right length]. fold (sql_sum l).
    rewrite Nat2Z.inj_succ, <- Z.add_1_r, inject_Z_plus.
    change (inject_Z 1) with 1%Q. split; lra.
Qed.

Lemma sql_avg_in_range (l : list Q) (a : Q) :
  Forall (fun q => (0 <= q /\ q <= 5)%Q) l ->
  sql_avg l = Some a -> (0 <= a /\ a <= 5)%Q.
Proof.
  intros Hl. destruct l as [|q l]; [discriminate|].
  intros [= <-]. destruct (sql_sum_bounds _ Hl) as [H0 H5].
  set (n := inject_Z (sql_count (q :: l))) in *.
  assert (Hn : (0 < n)%Q).
  { unfold n, sql_count. rewrite <- (Zlt_Qlt 0). simpl. lia. }
  clearbody n.
  change (sql_sum (q :: l)) with (q + sql_sum l)%Q in H0, H5.
  generalize dependent (q + sql_sum l)%Q. intros total H0 H5.
  split.
  - apply Qle_shift_div_l; [exact Hn|]. lra.
  - apply Qle_shift_div_r; [exact Hn|]. lra.
Qed.

Lemma sql_round2_in_range (x : Q) :
  (0 <= x /\ x <= 5)%Q -> (0 <= sql_round2 x /\ sql_round2 x <= 5)%Q.
Proof.
  intros [H0 H5]. destruct (sql_round2_nearest x) as [[k Hk] Hnear].
  rewrite Hk in *. apply Qabs_Qle_condition in Hnear.
  destruct Hnear as [Hlo Hhi].
  assert (Lo : (- (1 # 200) <= Qmake k 100)%Q) by lra.
  assert (Hi : (Qmake k 100 <= 5 + (1 # 200))%Q) by lra.
  unfold Qle in *; simpl in *. lia.
Qed.

Lemma recomputed_avg_in_range (mid : Z) (db : Db.t) :
  ratings_in_range db ->
  (0 <= recomputed_avg mid db /\ recomputed_avg mid db <= 5)%Q.
Proof.
  intros Hr. unfold recomputed_avg.
  destruct (sql_avg _) as [a|] eqn:E; [|split; unfold Qle; simpl; lia].
  apply sql_round2_in_range. apply (sql_avg_in_range _ _) in E; [exact E|].
  apply Forall_forall. intros q Hq. apply in_map_iff in Hq.
  destruct Hq as (r & <- & Hin). apply filter_In in Hin.
  unfold ratings_in_range in Hr. rewrite Forall_forall in Hr.
  apply Hr, Hin.
Qed.

Lemma upsertRating_frame (user movie : Z) (v : Q) (t : Z) (db db' : Db.t) :
  upsertRating user movie v t db = Some db' ->
  Db.users db' = Db.users db /\ Db.movies db' = Db.movies db /\
  Db.recommendations db' = Db.recommendations db.
Proof.
  unfold upsertRating, insert_rating.
  destruct (getRating user movie db); [intros [= <-]; auto|].
  destruct (_ && _); [intros [= <-]; auto|discriminate].
Qed.

Lemma upsertRating_in_range (user movie : Z) (v : Q) (t : Z) (db db' : Db.t) :
  (0 <= v /\ v <= 5)%Q -> ratings_in_range db ->
  upsertRating user movie v t db = Some db' -> ratings_in_range db'.
Proof.
  unfold ratings_in_range, upsertRating, insert_rating. intros Hv Hr.
  destruct (getRating user movie db) as [r|].
  - intros [= <-]. simpl. apply Forall_forall. intros x Hx.
    apply in_map_iff in Hx. destruct Hx as (y & <- & Hy).
    rewrite Forall_forall in Hr.
    destruct (Rating.rating_id y =? Rating.rating_id r); simpl; auto.
  - destruct (_ && _); [|discriminate]. intros [= <-]. simpl.
    apply Forall_app. split; [exact Hr|]. now repeat constructor.
Qed.

Lemma getMovie_update_other (mid mid' : Z) (db : Db.t) :
  mid' <> mid ->
  getMovie mid' (update_movie_aggregates mid db) = getMovie mid' db.
Proof.
  intros Hne. unfold getMovie, update_movie_aggregates; simpl.
  rewrite find_map_stable
    by (intros m; now destruct (Movie.movie_id m =? mid)).
  destruct (find _ (Db.movies db)) as [m|] eqn:F; [|reflexivity].
  apply find_some in F. destruct F as [_ E]. apply Z.eqb_eq in E. simpl.
  destruct (Movie.movie_id m =? mid) eqn:T; [|reflexivity].
  apply Z.eqb_eq in T. congruence.
Qed.

Lemma catalog_entries_update (mid : Z) (db : Db.t) :
  map catalog_entry (Db.movies (update_movie_aggregates mid db)) =
  map catalog_entry (Db.movies db).
Proof.
  unfold update_movie_aggregates; simpl. rewrite map_map. apply map_ext.
  intros m. now destruct (Movie.movie_id m =? mid).
Qed.

Lemma other_movies_update (mid : Z) (db : Db.t) :
  filter (fun m => negb (Movie.movie_id m =? mid))
         (Db.movies (update_movie_aggregates mid db)) =
  filter (fun m => negb (Movie.movie_id m =? mid)) (Db.movies db).
Proof.
  unfold update_movie_aggregates; simpl.
  induction (Db.movies db) as [|m ms IH]; simpl; [reflexivity|].
  destruct (Movie.movie_id m =? mid) eqn:T; simpl; rewrite T; simpl;
    now rewrite IH.
Qed.

Lemma next_rating_id_fresh (rs : list Rating.t) (r : Rating.t) :
  In r rs -> Rating.rating_id r < next_rating_id rs.
Proof.
  unfold next_rating_id.
  induction rs as [|x rs IH]; cbn [fold_right In]; [tauto|].
  intros [->|Hin]; [lia|]. specialize (IH Hin). lia.
Qed.

Lemma filter_map_fixed {A : Type} (p : A -> bool) (g : A -> A) (l : list A) :
  (forall x, In x l -> p (g x) = p x) ->
  (forall x, In x l -> p x = true -> g x = x) ->
  filter p (map g l) = filter p l.
Proof.
  induction l as [|x l IH]; simpl; intros Hp Hg; [reflexivity|].
  rewrite (Hp x (or_introl eq_refl)).
  destruct (p x) eqn:E.
  - rewrite (Hg x (or_introl eq_refl) E). f_equal. apply IH; auto.
  - apply IH; auto.
Qed.

Lemma rating_id_injective (rs : list Rating.t) (a b : Rating.t) :
  NoDup (map Rating.rating_id rs) -> In a rs -> In b rs ->
  Rating.rating_id a = Rating.rating_id b -> a = b.
Proof.
  induction rs as [|x rs IH]; simpl; intros Hnd Ha Hb E; [contradiction|].
  inversion Hnd as [|? ? Hx Hnd']; subst.
  destruct Ha as [->|Ha], Hb as [->|Hb]; auto.
  - exfalso. apply Hx. rewrite E. now apply in_map.
  - exfalso. apply Hx. rewrite <- E. now apply in_map.
Qed.

(** A write for one pair leaves the rows of every other pair as they
    were and keeps the primary keys of [ratings] distinct. *)
Lemma upsertRating_other_rows (user movie : Z) (v : Q) (t : Z)
    (db db' : Db.t) :
  NoDup (map Rating.rating_id (Db.ratings db)) ->
  upsertRating user movie v t db = Some db' ->
  filter (fun r => negb (is_pair user movie r)) (Db.ratings db') =
  filter (fun r => negb (is_pair user movie r)) (Db.ratings db) /\
  NoDup (map Rating.rating_id (Db.ratings db')).
Proof.
  intros Hnd. unfold upsertRating.
  destruct (getRating user movie db) as [r|] eqn:G.
  - intros [= <-]. unfold update_rating; simpl.
    unfold getRating in G. apply find_some in G. destruct G as [Hr Pr].
    split.
    + apply filter_map_fixed.
      * intros x _. unfold is_pair.
        now destruct (Rating.rating_id x =? Rating.rating_id r).
      * intros x Hx Px.
        destruct (Rating.rating_id x =? Rating.rating_id r) eqn:E;
          [|reflexivity].
        apply Z.eqb_eq in E.
        rewrite (rating_id_injective _ _ _ Hnd Hx Hr E) in Px.
        unfold is_pair in Px. rewrite Pr in Px. discriminate.
    + rewrite map_map. erewrite map_ext; [exact Hnd|].
      intros x. now destruct (Rating.rating_id x =? Rating.rating_id r).
  - unfold insert_rating.
    destruct (existsb _ (Db.users db) && _); [|discriminate].
    intros [= <-]. simpl. split.
    + rewrite filter_app. simpl. unfold is_pair at 2. simpl.
      rewrite !Z.eqb_refl. simpl. apply app_nil_r.
    + rewrite map_app. simpl.
      apply NoDup_app_remove_l with (l := []). simpl.
      apply Permutation_NoDup with
        (l := next_rating_id (Db.ratings db)
              :: map Rating.rating_id (Db.ratings db)).
      * apply Permutation_cons_append.
      * constructor; [|exact Hnd].
        intros Hin. apply in_map_iff in Hin. destruct Hin as (x & E & Hx).
        pose proof (next_rating_id_fresh _ _ Hx). lia.
Qed.

Section RateFrame.
Variable py_int : string -> option Z.
Variable py_float : string -> option pyfloat.

Lemma rate_not_ok_keeps_store (env : Env) (session : option Z)
    (movie_id rating_val : option string) (db : Db.t) :
  fst (rate py_int py_float env session movie_id rating_val db) <> JsonOk ->
  snd (rate py_int py_float env session movie_id rating_val db) = db.
Proof.
  unfold rate. destruct session as [u|]; [|reflexivity].
  destruct (falsy movie_id || falsy rating_val); [reflexivity|].
  destruct movie_id as [m|], rating_val as [r|]; try reflexivity.
  destruct (py_int m), (py_float r) as [v|]; try reflexivity.
  destruct (in_range v); [|reflexivity].
  unfold rate_write. destruct (upsertRating _ _ _ _ _); [|reflexivity].
  simpl. congruence.
Qed.

(** What a request that answered [{"ok": true}] did. *)
Lemma rate_ok_store (env : Env) (session : option Z) (movie_id : string)
    (rating_val : option string) (mid : Z) (db : Db.t) :
  py_int movie_id = Some mid ->
  fst (rate py_int py_float env session (Some movie_id) rating_val db)
  = JsonOk ->
  exists user q db1,
    session = Some user /\ (0 <= q /\ q <= 5)%Q /\
    upsertRating user mid q (now env) db = Some db1 /\
    snd (rate py_int py_float env session (Some movie_id) rating_val db) =
    (if proc_fails env
     then (if aggregate_fails env then db1
           else update_movie_aggregates mid db1)
     else generate_recommendations_for_user_v2 user 15
            (if aggregate_fails env then db1
             else update_movie_aggregates mid db1)).
Proof.
  intros Hi Hok.
  destruct (rate_ok_inv _ _ _ _ _ _ _ Hok)
    as (user & m & r & mid' & v & q & -> & [= <-] & _ & Hi' & _ & Hq & E).
  assert (mid' = mid) by congruence. subst mid'.
  rewrite E in *. apply in_range_spec in Hq. destruct Hq as [_ Hq].
  unfold rate_write in *.
  destruct (upsertRating user mid q (now env) db) as [db1|] eqn:H1;
    [|discriminate].
  exists user, q, db1. repeat split; tauto.
Qed.

End RateFrame.

Lemma response_eq_ok (resp : response) : resp = JsonOk \/ resp <> JsonOk.
Proof. destruct resp; (now left) || (right; discriminate). Qed.

Section RateExtras.
Variable py_int : string -> option Z.
Variable py_float : string -> option pyfloat.

Lemma rate_in_range_invariant (env : Env) (session : option Z)
    (movie_id rating_val : option string) (db : Db.t) :
  ratings_in_range db ->
  ratings_in_range
    (snd (rate py_int py_float env session movie_id rating_val db)).
Proof.
  intros Hr. unfold rate. destruct session as [u|]; [|exact Hr].
  destruct (falsy movie_id || falsy rating_val); [exact Hr|].
  destruct movie_id as [m|], rating_val as [r|]; try exact Hr.
  destruct (py_int m) as [mid|], (py_float r) as [v|]; try exact Hr.
  destruct (in_range v) as [q|] eqn:Hq; [|exact Hr].
  apply in_range_spec in Hq. destruct Hq as [_ Hq].
  unfold rate_write.
  destruct (upsertRating u mid q (now env) db) as [db1|] eqn:H1; [|exact Hr].
  pose proof (upsertRating_in_range _ _ _ _ _ _ Hq Hr H1) as R.
  simpl. now destruct (proc_fails env), (aggregate_fails env).
Qed.

(** X7. A request to [/rate] that does not answer [{"ok": true}] (any 400,
    the 401, the unhandled error of the commit) leaves the whole store
    as it was. *)
Theorem rate_failure_changes_nothing (env : Env) (session : option Z)
    (movie_id rating_val : option string) (db : Db.t) :
  fst (rate py_int py_float env session movie_id rating_val db) <> JsonOk ->
  snd (rate py_int py_float env session movie_id rating_val db) = db.
Proof. apply rate_not_ok_keeps_store. Qed.

Lemma rate_movies_after (env : Env) (session : option Z) (movie_id : string)
    (rating_val : option string) (mid : Z) (db : Db.t) :
  py_int movie_id = Some mid ->
  let out := rate py_int py_float env session (Some movie_id) rating_val db in
  Db.users (snd out) = Db.users db /\
  (Db.movies (snd out) = Db.movies db \/
   exists db1, Db.movies db1 = Db.movies db /\
               Db.movies (snd out) =
               Db.movies (update_movie_aggregates mid db1)).
Proof.
  intros Hi out.
  destruct (response_eq_ok (fst out)) as [Hok|Hno].
  - destruct (rate_ok_store py_int py_float env session movie_id rating_val
                mid db Hi Hok) as (user & q & db1 & _ & _ & H1 & E).
    fold out in E. rewrite E.
    destruct (upsertRating_frame _ _ _ _ _ _ H1) as (Hu & Hm & _).
    destruct (proc_fails env), (aggregate_fails env); simpl;
      (split; [exact Hu|]); eauto.
  - unfold out. rewrite (rate_not_ok_keeps_store _ _ _ _ _ _ _ Hno). auto.
Qed.

(** X8. Rating movie [mid] never touches the [users] table, changes no
    column of any movie other than the two aggregates, leaves every row
    of every other movie as it was, and so leaves the API answer for
    every other movie unchanged. *)
Theorem rate_touches_one_movie (env : Env) (session : option Z)
    (movie_id : string) (rating_val : option string) (mid : Z) (db : Db.t) :
  py_int movie_id = Some mid ->
  let out := rate py_int py_float env session (Some movie_id) rating_val db in
  Db.users (snd out) = Db.users db /\
  map catalog_entry (Db.movies (snd out)) = map catalog_entry (Db.movies db) /\
  filter (fun m => negb (Movie.movie_id m =? mid)) (Db.movies (snd out)) =
  filter (fun m => negb (Movie.movie_id m =? mid)) (Db.movies db) /\
  (forall other, other <> mid ->
     api_movie other (snd out) = api_movie other db).
Proof.
  intros Hi out.
  destruct (rate_movies_after env session movie_id rating_val mid db Hi)
    as [Hu [Hm|(db1 & H1 & Hm)]]; fold out in Hu, Hm.
  - split; [exact Hu|]. rewrite Hm. repeat split.
    intros other _. unfold api_movie, getMovie. now rewrite Hm.
  - split; [exact Hu|]. rewrite Hm. split; [|split].
    + now rewrite catalog_entries_update, H1.
    + now rewrite other_movies_update, H1.
    + intros other Hne. unfold api_movie.
      assert (G : getMovie other (snd out) = getMovie other db).
      { transitivity (getMovie other (update_movie_aggregates mid db1)).
        - unfold getMovie. now rewrite Hm.
        - rewrite (getMovie_update_other _ _ _ Hne).
          unfold getMovie. now rewrite H1. }
      now rewrite G.
Qed.

(** X9. [/rate] keeps every stored rating within [0, 5], whatever the
    request. *)
Theorem rate_keeps_ratings_in_range (env : Env) (session : option Z)
    (movie_id rating_val : option string) (db : Db.t) :
  ratings_in_range db ->
  ratings_in_range
    (snd (rate py_int py_float env session movie_id rating_val db)).
Proof. apply rate_in_range_invariant. Qed.

(** X10. With distinct primary keys in [ratings], a request of [user] for
    movie [mid] changes no rating row of any other (user, movie) pair
    and keeps the primary keys distinct. *)
Theorem rate_touches_one_pair (env : Env) (user : Z) (movie_id : string)
    (rating_val : option string) (mid : Z) (db : Db.t) :
  py_int movie_id = Some mid ->
  NoDup (map Rating.rating_id (Db.ratings db)) ->
  let out :=
    rate py_int py_float env (Some user) (Some movie_id) rating_val db in
  filter (fun r => negb (is_pair user mid r)) (Db.ratings (snd out)) =
  filter (fun r => negb (is_pair user mid r)) (Db.ratings db) /\
  NoDup (map Rating.rating_id (Db.ratings (snd out))).
Proof.
  intros Hi Hnd out.
  destruct (response_eq_ok (fst out)) as [Hok|Hno].
  - destruct (rate_ok_store py_int py_float env (Some user) movie_id
                rating_val mid db Hi Hok)
      as (user' & q & db1 & [= <-] & _ & H1 & E).
    fold out in E. rewrite E.
    destruct (upsertRating_other_rows _ _ _ _ _ _ Hnd H1) as [Hf Hn].
    now destruct (proc_fails env), (aggregate_fails env).
  - unfold out. rewrite (rate_not_ok_keeps_store _ _ _ _ _ _ _ Hno). auto.
Qed.

(** X12. After a rating that answered [{"ok": true}] with the aggregate
    update not raising, on a store whose ratings are all within
    [0, 5], the API for that movie reports the number of its rating
    rows, which is at least 1, and as [avg_rating] their rounded mean,
    a number between 0 and 5. *)
Theorem api_movie_after_rate (env : Env) (session : option Z)
    (movie_id : string) (rating_val : option string) (mid : Z) (db : Db.t) :
  py_int movie_id = Some mid ->
  aggregate_fails env = false ->
  ratings_in_range db ->
  movie_exists mid db ->
  let out := rate py_int py_float env session (Some movie_id) rating_val db in
  fst out = JsonOk ->
  exists body,
    api_movie mid (snd out) = ApiMovie body /\
    json_movie_id body = mid /\
    json_ratings_count body = Some (recomputed_count mid (snd out)) /\
    1 <= recomputed_count mid (snd out) /\
    (json_avg_rating body == recomputed_avg mid (snd out))%Q /\
    (0 <= json_avg_rating body /\ json_avg_rating body <= 5)%Q.
Proof.
  intros Hi Hagg Hr Hm out Hok.
  destruct (rate_ok_store py_int py_float env session movie_id rating_val
              mid db Hi Hok) as (user & q & db1 & -> & Hq & H1 & E).
  assert (Hcur : aggregates_current mid (snd out)).
  { destruct (rate_ok_inv _ _ _ _ _ _ _ Hok)
      as (u & m & r & mid' & v & q' & [= <-] & [= <-] & _ & Hi' & _ & _ & E').
    assert (mid' = mid) by congruence. subst mid'.
    unfold out. rewrite E'. apply rate_write_aggregates; [|exact Hagg].
    unfold out in Hok. now rewrite E' in Hok. }
  assert (Hr' : ratings_in_range (snd out))
    by (now apply rate_in_range_invariant).
  assert (Hrat : Db.ratings (snd out) = Db.ratings db1).
  { fold out in E. rewrite E.
    now destruct (proc_fails env), (aggregate_fails env). }
  assert (Hm' : movie_exists mid (snd out)).
  { destruct (rate_movies_after env (Some user) movie_id rating_val mid db Hi)
      as [_ [Hms|(db2 & H2 & Hms)]]; fold out in Hms;
      unfold movie_exists; rewrite Hms; [exact Hm|].
    unfold update_movie_aggregates; simpl. rewrite map_map.
    erewrite map_ext; [rewrite H2; exact Hm|].
    intros m. now destruct (Movie.movie_id m =? mid). }
  destruct (getMovie mid (snd out)) as [m|] eqn:G;
    [|apply getMovie_none in G; contradiction].
  destruct (getMovie_some _ _ _ G) as [Hin Hid].
  destruct (Hcur m Hin Hid) as [Hc Ha].
  exists (mkMovieJson (Movie.movie_id m) (Movie.title m) (Movie.genre m)
            (avg_or_zero (Movie.avg_rating m)) (Movie.ratings_count m)
            (Movie.poster_path m)).
  assert (Havg : (avg_or_zero (Movie.avg_rating m)
                  == recomputed_avg mid (snd out))%Q).
  { rewrite Ha. simpl.
    destruct (Qeq_bool (recomputed_avg mid (snd out)) 0) eqn:Z0;
      [|reflexivity].
    apply Qeq_bool_iff in Z0. now symmetry. }
  simpl. split; [unfold api_movie; now rewrite G|].
  split; [exact Hid|]. split; [exact Hc|]. split; [|split; [exact Havg|]].
  - pose proof (upsertRating_getRating _ _ _ _ _ _ H1) as R.
    rewrite <- (getRating_ratings user mid db1 (snd out) Hrat) in R.
    destruct (getRating user mid (snd out)) as [r|] eqn:GR; [|discriminate].
    unfold getRating in GR. apply find_some in GR. destruct GR as [Hrin P].
    apply andb_true_iff in P. destruct P as [_ P].
    unfold recomputed_count, sql_count, ratings_of_movie.
    assert (In r (filter (fun r0 => Rating.movie_id r0 =? mid)
                         (Db.ratings (snd out))))
      by (apply filter_In; auto).
    destruct (filter _ (Db.ratings (snd out))); [contradiction|simpl; lia].
  - rewrite Havg. now apply recomputed_avg_in_range.
Qed.

End RateExtras.

(** ** Reading recommendations *)

Section ReadFacts.
Variable py_int : string -> option Z.

(** X13. When the procedure raises, [/recommendations] with a limit
    [n >= 0] changes nothing in the store and renders the query of the
    [except] branch: no unrated movie left out is rated above one that
    is shown, and when at most [n] movies are unrated all of them are
    shown. *)
Theorem fallback_shows_the_top_unrated (env : Env) (user : Z)
    (limit : option string) (n : Z) (db : Db.t) :
  proc_fails env = true ->
  match limit with None => Some 20 | Some s => py_int s end = Some n ->
  0 <= n ->
  exists ms,
    recommendations py_int env (Some user) limit db =
    (Render "recommendations.html" (map (fallback_rec user) ms), db) /\
    (forall m m', In m ms -> In m' (Db.movies db) ->
                  ~ In (Movie.movie_id m') (ratedMovieIds user db) ->
                  ~ In m' ms -> by_avg_rating_desc m m' = true) /\
    ((length (filter (unseen (ratedMovieIds user db)) (Db.movies db))
      <= Z.to_nat n)%nat ->
     Permutation ms (filter (unseen (ratedMovieIds user db)) (Db.movies db))).
Proof.
  intros Hp Hl Hn.
  exists (firstn (Z.to_nat n)
            (order_by by_avg_rating_desc
               (filter (unseen (ratedMovieIds user db)) (Db.movies db)))).
  split; [|split].
  - unfold recommendations. rewrite Hl, Hp.
    unfold movies_fallback, sql_limit.
    destruct (n <? 0) eqn:E; [apply Z.ltb_lt in E; lia|reflexivity].
  - intros m m' Hm Hm' Hun Hout.
    apply (first_rows_on_top by_avg_rating_desc (Z.to_nat n)
             (filter (unseen (ratedMovieIds user db)) (Db.movies db))).
    + apply by_avg_rating_desc_total.
    + apply by_avg_rating_desc_trans.
    + exact Hm.
    + apply filter_In. split; [exact Hm'|now apply unseen_not_in].
    + exact Hout.
  - intros Hlen. rewrite firstn_short by (now rewrite order_by_length).
    apply Permutation_sym, order_by_perm.
Qed.

End ReadFacts.

Lemma float_desc_rows_total (a b : Recommendation.t * Movie.t) :
  by_avg_rating_desc (snd a) (snd b) = true \/
  by_avg_rating_desc (snd b) (snd a) = true.
Proof. apply by_avg_rating_desc_total. Qed.

(** X14. [/custom_recommendations] never changes the store.  Without a
    session it redirects to the login page.  With one it renders
    exactly the stored recommendation rows of the session user whose
    movie has a [movies] row, each joined to such a row, in
    non-increasing [avg_rating] order ([NULL] last). *)
Theorem custom_recommendations_reads_own_rows (session : option Z)
    (db : Db.t) :
  snd (custom_recommendations session db) = db /\
  match session with
  | None =>
      fst (custom_recommendations session db) =
      Redirect "login" "Login to access custom recommendations"
  | Some uid =>
      exists recs,
        fst (custom_recommendations session db) =
        Render "custom_recomm.html" recs /\
        (forall r, In r recs <->
           exists c m,
             In c (Db.recommendations db) /\ Recommendation.user_id c = uid /\
             In m (Db.movies db) /\
             Movie.movie_id m = Recommendation.movie_id c /\
             r = row_rec (c, m)) /\
        Sorted (fun a b =>
                  float_desc (rec_avg_rating a) (rec_avg_rating b) = true)
               recs
  end.
Proof.
  unfold custom_recommendations.
  destruct session as [uid|]; simpl; [|auto]. split; [reflexivity|].
  exists (select_recommendations uid db). split; [reflexivity|]. split.
  - intros r. unfold select_recommendations, join_movies.
    rewrite in_map_iff. split.
    + intros ([c m] & <- & H). apply in_order_by, filter_In in H.
      destruct H as [H Hu]. simpl in Hu. apply Z.eqb_eq in Hu.
      apply in_flat_map in H. destruct H as (c' & Hc' & H).
      apply in_map_iff in H. destruct H as (m' & [= <- <-] & Hm).
      apply filter_In in Hm. destruct Hm as [Hm E]. apply Z.eqb_eq in E.
      exists c', m'. auto.
    + intros (c & m & Hc & Hu & Hm & E & ->).
      exists (c, m). split; [reflexivity|].
      apply in_order_by, filter_In. split; [|simpl; now apply Z.eqb_eq].
      apply in_flat_map. exists c. split; [exact Hc|].
      apply in_map, filter_In. split; [exact Hm|].
      apply Z.eqb_eq. now symmetry.
  - unfold select_recommendations.
    apply (sorted_map row_rec
             (in_order (fun a b => by_avg_rating_desc (snd a) (snd b)))).
    + intros [c m] [c' m']. unfold in_order, by_avg_rating_desc. simpl. auto.
    + apply order_by_sorted. intros a b. apply float_desc_rows_total.
Qed.

(** ** Sessions, login and registration *)

Lemma find_none_existsb {A : Type} (f : A -> bool) (l : list A) :
  find f l = None <-> existsb f l = false.
Proof.
  induction l as [|x l IH]; simpl; [tauto|].
  destruct (f x); simpl; [split; discriminate|exact IH].
Qed.

Lemma next_user_id_fresh (us : list User.t) (u : User.t) :
  In u us -> User.user_id u < next_user_id us.
Proof.
  unfold next_user_id.
  induction us as [|x us IH]; cbn [fold_right In]; [tauto|].
  intros [->|Hin]; [lia|]. specialize (IH Hin). lia.
Qed.

Lemma users_unique_snoc (collate : string -> string -> bool)
    (us : list User.t) (new : User.t) :
  users_unique collate us ->
  (forall a, In a us ->
     collate (User.username a) (User.username new) = false /\
     collate (User.email a) (User.email new) = false) ->
  users_unique collate (us ++ [new]).
Proof.
  unfold users_unique. induction 1 as [|x l Hx Hl IH]; intros Hnew; simpl.
  - repeat constructor.
  - constructor.
    + apply Forall_app. split; [exact Hx|].
      constructor; [|constructor]. apply Hnew. now left.
    + apply IH. intros a Ha. apply Hnew. now right.
Qed.

Section AuthFacts.
Variable collate : string -> string -> bool.
Variable generate_password_hash : string -> string -> string.
Variable check_password_hash : string -> string -> bool.

Lemma sign_in_sound (row : option User.t) (password : string) (s : Session) :
  let out := sign_in check_password_hash row password s in
  (fst out = RedirectTo "home" ->
   exists u, row = Some u /\
     check_password_hash (User.password_hash u) password = true /\
     identity (snd out) = (Some (User.user_id u), Some (User.username u))) /\
  (fst out <> RedirectTo "home" -> identity (snd out) = identity s).
Proof.
  unfold sign_in. destruct row as [u|]; simpl.
  - destruct (check_password_hash (User.password_hash u) password) eqn:C;
      simpl; split.
    + intros _. exists u. auto.
    + congruence.
    + discriminate.
    + reflexivity.
  - split; [discriminate|reflexivity].
Qed.

(** X15. [/login] logs in only on a password that checks against the hash
    of the row it found: the row the procedure returned, or, when the
    procedure raised, the first [users] row whose username or email is
    the submitted name.  The session then carries that row's id and
    username.  Every other outcome leaves the identity of the session
    as it was. *)
Theorem login_needs_a_matching_hash (m : method)
    (name password : option string) (proc : attempt (option User.t))
    (s : Session) (db : Db.t) :
  let out := login collate check_password_hash m name password proc s db in
  (fst out = RedirectTo "home" ->
   exists u nm pw,
     name = Some nm /\ password = Some pw /\
     check_password_hash (User.password_hash u) pw = true /\
     identity (snd out) = (Some (User.user_id u), Some (User.username u)) /\
     (proc = Returned (Some u) \/
      (proc = Raised /\ find (named collate nm) (Db.users db) = Some u))) /\
  (fst out <> RedirectTo "home" -> identity (snd out) = identity s).
Proof.
  unfold login. destruct m; [split; [discriminate|reflexivity]|].
  destruct name as [nm|], password as [pw|];
    try (split; [discriminate|reflexivity]).
  destruct (falsy (Some nm) || falsy (Some pw));
    [split; [discriminate|reflexivity]|].
  destruct proc as [|row].
  - destruct (sign_in_sound (find (named collate nm) (Db.users db)) pw s)
      as [Hyes Hno].
    split; [|exact Hno].
    intros H. destruct (Hyes H) as (u & F & C & I).
    exists u, nm, pw. auto 10.
  - destruct (sign_in_sound row pw s) as [Hyes Hno].
    split; [|exact Hno].
    intros H. destruct (Hyes H) as (u & -> & C & I).
    exists u, nm, pw. auto 10.
Qed.

(** X16. After [/logout] the session names nobody and keeps only the
    "Logged out" flash; with it [/rate] answers 401 and the two
    recommendation pages redirect to the login page, none of them
    changing the store. *)
Theorem logout_closes_the_session (s : Session)
    (py_int : string -> option Z) (py_float : string -> option pyfloat)
    (env : Env) (movie_id rating_val limit : option string) (db : Db.t) :
  let s' := snd (logout s) in
  s' = mkSession None None [("Logged out", "info")] /\
  rate py_int py_float env (session_user_id s') movie_id rating_val db =
  (JsonError 401 "not authenticated", db) /\
  recommendations py_int env (session_user_id s') limit db =
  (Redirect "login" "Login to see recommendations", db) /\
  custom_recommendations (session_user_id s') db =
  (Redirect "login" "Login to access custom recommendations", db).
Proof. repeat split. Qed.

(** X17. When the registration procedure raises, [/register] keeps usernames
    and emails unique, never runs into the unique constraints at commit,
    and changes at most the [users] table: either nothing, or one new
    row at the end with a fresh id, the submitted username and email and
    the hash of the submitted password. *)
Theorem register_fallback_keeps_users_unique (m : method)
    (username email password : option string) (salt : string) (t : Z)
    (s : Session) (db : Db.t) :
  users_unique collate (Db.users db) ->
  let out :=
    register collate generate_password_hash m username email password salt t
             Raised s db in
  users_unique collate (Db.users (snd out)) /\
  fst (fst out) <> Crash "IntegrityError" /\
  Db.movies (snd out) = Db.movies db /\
  Db.ratings (snd out) = Db.ratings db /\
  Db.recommendations (snd out) = Db.recommendations db /\
  (snd out = db \/
   exists u e p new,
     username = Some u /\ email = Some e /\ password = Some p /\
     fst (fst out) = RedirectTo "login" /\
     Db.users (snd out) = (Db.users db ++ [new])%list /\
     new = User.mk (next_user_id (Db.users db)) u e
                   (generate_password_hash salt p) t /\
     ~ In (User.user_id new) (map User.user_id (Db.users db))).
Proof.
  intros Hu. unfold register.
  destruct m; [simpl; repeat split; auto; discriminate|].
  destruct username as [u|], email as [e|], password as [p|];
    try (simpl; repeat split; auto; discriminate).
  destruct (falsy (Some u) || falsy (Some e) || falsy (Some p));
    [simpl; repeat split; auto; discriminate|].
  destruct (find (taken collate u e) (Db.users db)) eqn:F;
    [simpl; repeat split; auto; discriminate|].
  unfold insert_user.
  pose proof (proj1 (find_none_existsb _ _) F) as Ex. rewrite Ex.
  destruct (negb (fits 50 u && fits 100 e
                  && fits 255 (generate_password_hash salt p)));
    [simpl; repeat split; auto; discriminate|].
  simpl. split; [|repeat split; try discriminate].
  - apply users_unique_snoc; [exact Hu|].
    intros a Ha. pose proof (find_none _ _ F a Ha) as N.
    unfold taken in N. apply orb_false_iff in N. exact N.
  - right. exists u, e, p. eexists. repeat split.
    simpl. intros Hin. apply in_map_iff in Hin. destruct Hin as (a & E & Ha).
    pose proof (next_user_id_fresh _ _ Ha). lia.
Qed.

Hypothesis collate_refl : forall a, collate a a = true.
Hypothesis hash_checks :
  forall salt p, check_password_hash (generate_password_hash salt p) p = true.

(** X18. Register, then log in, both with the procedures raising:
    when username, email and password hash fit their columns, no
    [users] row has the new username or email, and none has the new
    username as its email, registration succeeds and a login with the
    username and the password is accepted as the new user. *)
Theorem register_then_login (u e p salt : string) (t : Z) (s s1 : Session)
    (db : Db.t) :
  u <> "" -> e <> "" -> p <> "" ->
  (String.length u <= 50)%nat -> (String.length e <= 100)%nat ->
  (String.length (generate_password_hash salt p) <= 255)%nat ->
  existsb (taken collate u e) (Db.users db) = false ->
  existsb (named collate u) (Db.users db) = false ->
  let reg :=
    register collate generate_password_hash POST (Some u) (Some e) (Some p)
             salt t Raised s db in
  let out :=
    login collate check_password_hash POST (Some u) (Some p) Raised s1
          (snd reg) in
  fst (fst reg) = RedirectTo "login" /\
  fst out = RedirectTo "home" /\
  identity (snd out) = (Some (next_user_id (Db.users db)), Some u) /\
  user_exists (next_user_id (Db.users db)) (snd reg).
Proof.
  intros Hu He Hp Lu Le Lh Htaken Hnamed reg out.
  assert (Fu : falsy (Some u) = false)
    by (simpl; now destruct (String.eqb_spec u "")).
  assert (Fe : falsy (Some e) = false)
    by (simpl; now destruct (String.eqb_spec e "")).
  assert (Fp : falsy (Some p) = false)
    by (simpl; now destruct (String.eqb_spec p "")).
  assert (Fits : fits 50 u && fits 100 e
                 && fits 255 (generate_password_hash salt p) = true).
  { unfold fits. rewrite !andb_true_iff, !Nat.leb_le. auto. }
  assert (R : reg =
              (RedirectTo "login",
               flash "Registered (fallback). Please login." "success" s,
               Db.mk (Db.users db ++
                      [User.mk (next_user_id (Db.users db)) u e
                               (generate_password_hash salt p) t])
                     (Db.movies db) (Db.ratings db) (Db.recommendations db))).
  { unfold reg, register. rewrite Fu, Fe, Fp. simpl.
    rewrite (proj2 (find_none_existsb _ _) Htaken).
    unfold insert_user. now rewrite Fits, Htaken. }
  assert (L : find (named collate u) (Db.users (snd reg)) =
              Some (User.mk (next_user_id (Db.users db)) u e
                            (generate_password_hash salt p) t)).
  { rewrite R. simpl. apply find_app_none.
    - now apply find_none_existsb.
    - unfold named. simpl. now rewrite collate_refl. }
  split; [now rewrite R|].
  unfold out, login. rewrite Fu, Fp. simpl. rewrite L.
  unfold sign_in. simpl. rewrite hash_checks. simpl.
  split; [reflexivity|]. split; [reflexivity|].
  unfold user_exists. rewrite R. simpl. rewrite map_app. simpl.
  apply in_or_app. right. now left.
Qed.

End AuthFacts.

Section LoginThenRate.
Variable collate : string -> string -> bool.
Variable check_password_hash : string -> string -> bool.
Variable py_int : string -> option Z.
Variable py_float : string -> option pyfloat.
Hypothesis py_int_empty : py_int "" = None.
Hypothesis py_float_empty : py_float "" = None.

(** X19. Log in through the [users] table (the procedure raising), then
    rate an existing movie in range: the rating is accepted and the row
    read back for the pair belongs to the user whose password was
    checked and carries the submitted value. *)
Theorem login_then_rate (nm pw : string) (s : Session) (db : Db.t)
    (env : Env) (movie_id rating_val : string) (mid : Z) (q : Q) :
  let li :=
    login collate check_password_hash POST (Some nm) (Some pw) Raised s db in
  fst li = RedirectTo "home" ->
  py_int movie_id = Some mid ->
  py_float rating_val = Some (Finite q) -> (0 <= q /\ q <= 5)%Q ->
  movie_exists mid db ->
  let out :=
    rate py_int py_float env (session_user_id (snd li)) (Some movie_id)
         (Some rating_val) db in
  exists u r,
    find (named collate nm) (Db.users db) = Some u /\
    check_password_hash (User.password_hash u) pw = true /\
    fst out = JsonOk /\
    getRating (User.user_id u) mid (snd out) = Some r /\
    Rating.user_id r = User.user_id u /\ Rating.movie_id r = mid /\
    Rating.rating r = q.
Proof.
  intros li Hli Hi Hf Hq Hm out.
  unfold li, login in Hli |- *. subst out li. unfold login.
  destruct (falsy (Some nm) || falsy (Some pw)); [discriminate|].
  destruct (find (named collate nm) (Db.users db)) as [u|] eqn:F;
    [|discriminate].
  unfold sign_in in *.
  destruct (check_password_hash (User.password_hash u) pw) eqn:C;
    [|discriminate].
  cbn [snd session_user_id flash].
  assert (Hu : user_exists (User.user_id u) db).
  { apply find_some in F. unfold user_exists. apply in_map. tauto. }
  rewrite (rate_parsed py_int py_float py_int_empty py_float_empty
             _ _ _ _ _ _ _ Hi Hf).
  assert (E : in_range (Finite q) = Some q) by (apply in_range_spec; auto).
  rewrite E.
  destruct (upsertRating_succeeds (User.user_id u) mid q (now env) db
              (or_intror (conj Hu Hm))) as [db1 H1].
  destruct (rate_write_ok env _ _ _ _ _ H1) as [Hok Hr].
  pose proof (upsertRating_getRating _ _ _ _ _ _ H1) as G.
  rewrite <- (getRating_ratings _ _ _ _ Hr) in G.
  destruct (getRating (User.user_id u) mid
              (snd (rate_write env (User.user_id u) mid q db)))
    as [r|] eqn:GR; [|discriminate].
  exists u, r. injection G as G.
  pose proof GR as P. unfold getRating in P. apply find_some in P.
  destruct P as [_ P]. apply andb_true_iff in P. destruct P as [P1 P2].
  apply Z.eqb_eq in P1. apply Z.eqb_eq in P2. auto 10.
Qed.

End LoginThenRate.

Section PairInvariant.
Variable py_int : string -> option Z.
Variable py_float : string -> option pyfloat.

(** X11. Whatever the request, [/rate] keeps a store without duplicate
    (user, movie) rows free of them. *)
Theorem rate_keeps_pairs_unique (env : Env) (session : option Z)
    (movie_id rating_val : option string) (db : Db.t) :
  (forall u m, (length (rows_of_pair u m db) <= 1)%nat) ->
  forall u m,
    (length (rows_of_pair u m
               (snd (rate py_int py_float env session movie_id rating_val db)))
     <= 1)%nat.
Proof. intros H u m. apply rate_bound, H. Qed.

End PairInvariant.

(** ** Configuration *)

Lemma falsy_false (v : option string) :
  negb (falsy v) = true <-> exists s, v = Some s /\ s <> "".
Proof.
  destruct v as [s|]; simpl.
  - destruct (String.eqb_spec s ""); simpl; split.
    + discriminate.
    + intros (s' & [= <-] & N). contradiction.
    + eauto.
    + reflexivity.
  - split; [discriminate|intros (s & E & _); discriminate].
Qed.

(** X20. [Config] loads exactly when [DB_USER], [DB_PASSWORD] and [DB_NAME]
    are set and not empty and neither [DB_HOST] nor [DB_PORT] is set to
    the empty string; the host then defaults to ["localhost"], the port
    to ["3306"], the secret key to ["fallback_key"], and the database
    URI is assembled from the five values as they are. *)
Theorem config_loads_when_complete (environ : string -> option string) :
  ((exists c, load_config environ = Some c) <->
   (exists u p n,
      environ "DB_USER" = Some u /\ u <> "" /\
      environ "DB_PASSWORD" = Some p /\ p <> "" /\
      environ "DB_NAME" = Some n /\ n <> "" /\
      environ "DB_HOST" <> Some "" /\ environ "DB_PORT" <> Some "")) /\
  (forall c, load_config environ = Some c ->
     Config.DB_HOST c =
       match environ "DB_HOST" with Some h => h | None => "localhost" end /\
     Config.DB_PORT c =
       match environ "DB_PORT" with Some o => o | None => "3306" end /\
     Config.SECRET_KEY c =
       match environ "SECRET_KEY" with Some k => k | None => "fallback_key" end
     /\
     Config.SQLALCHEMY_DATABASE_URI c =
       "mysql+pymysql://" ++ Config.DB_USER c ++ ":" ++ Config.DB_PASSWORD c
       ++ "@" ++ Config.DB_HOST c ++ ":" ++ Config.DB_PORT c ++ "/"
       ++ Config.DB_NAME c).
Proof.
  unfold load_config, getenv. cbn [forallb].
  destruct (environ "DB_USER") as [u|]; cbn [falsy negb andb];
    [|split; [split; [intros [c H]; discriminate
                     |intros (u & p & n & H & _); discriminate]
             |discriminate]].
  destruct (environ "DB_PASSWORD") as [p|]; cbn [falsy negb andb];
    [|rewrite ?andb_false_r;
      split; [split; [intros [c H]; discriminate
                     |intros (u' & p & n & _ & _ & H & _); discriminate]
             |discriminate]].
  destruct (environ "DB_NAME") as [n|]; cbn [falsy negb andb];
    [|rewrite ?andb_false_r;
      split; [split; [intros [c H]; discriminate
                     |intros (u' & p' & n & _ & _ & _ & _ & H & _);
                      discriminate]
             |discriminate]].
  destruct (environ "SECRET_KEY") as [k|],
           (environ "DB_HOST") as [h|], (environ "DB_PORT") as [o|];
    cbn [falsy negb andb];
    repeat match goal with
           | |- context [String.eqb ?x ""] =>
               destruct (String.eqb_spec x ""); cbn [negb andb]
           end;
    (split;
     [split;
      [intros [c H]; try discriminate; exists u, p, n;
       repeat split; try assumption; try discriminate; congruence
      |intros (u' & p' & n' & [= <-] & Hu & [= <-] & Hp & [= <-] & Hn & Hh
               & Ho);
       try contradiction; try congruence; eauto]
     |intros c [= <-]; repeat split]).
Qed.

(** * Runs of the other views *)

Lemma string_eqb_trans (a b c : string) :
  String.eqb a b = true -> String.eqb b c = true -> String.eqb a c = true.
Proof. rewrite !String.eqb_eq. congruence. Qed.

Lemma catalog_ratings_in_range : ratings_in_range Site.catalog.
Proof. repeat constructor; unfold Qle; simpl; lia. Qed.

(** The genre "Drama" of the home page and its [/movies] page. *)
Lemma offered_genre_has_movies_run :
  In "Drama" (page_genres (home String.eqb Site.catalog)) /\
  page_genres (movies String.eqb (Some "Drama") Site.catalog) =
  page_genres (home String.eqb Site.catalog) /\
  page_movies (movies String.eqb (Some "Drama") Site.catalog) <> [].
Proof.
  assert (H : In "Drama" (page_genres (home String.eqb Site.catalog)))
    by (simpl; auto).
  split; [exact H|].
  exact (offered_genre_has_movies String.eqb String.eqb_refl Site.catalog
           "Drama" H).
Defined.

Lemma catalog_genre_is_offered_run :
  exists g', In g' (genres String.eqb Site.catalog) /\
             String.eqb "Noir" g' = true /\
             In (Run.film 6 "Noir" 1 1)
                (page_movies (movies String.eqb (Some g') Site.catalog)).
Proof.
  apply (catalog_genre_is_offered String.eqb String.eqb_refl string_eqb_trans
           Site.catalog (Run.film 6 "Noir" 1 1) "Noir");
    [simpl; auto 10|reflexivity|reflexivity].
Defined.

(** A rating that does not parse. *)
Lemma rate_failure_changes_nothing_run :
  snd (Run.post_rate Run.calm "3" "great" Site.catalog) = Site.catalog.
Proof.
  apply (rate_failure_changes_nothing int_literal float_literal Run.calm
           (Some 1) (Some "3") (Some "great") Site.catalog).
  discriminate.
Defined.

Lemma rate_touches_one_movie_run :
  let out := Run.post_rate Run.calm "3" "4.5" Site.catalog in
  Db.users (snd out) = Db.users Site.catalog /\
  map catalog_entry (Db.movies (snd out)) =
  map catalog_entry (Db.movies Site.catalog) /\
  filter (fun m => negb (Movie.movie_id m =? 3)) (Db.movies (snd out)) =
  filter (fun m => negb (Movie.movie_id m =? 3)) (Db.movies Site.catalog) /\
  (forall other, other <> 3 ->
     api_movie other (snd out) = api_movie other Site.catalog).
Proof.
  apply (rate_touches_one_movie int_literal float_literal Run.calm (Some 1)
           "3" (Some "4.5") 3 Site.catalog).
  reflexivity.
Defined.

Lemma rate_keeps_ratings_in_range_run :
  ratings_in_range (snd (Run.post_rate Run.calm "3" "4.5" Site.catalog)).
Proof.
  apply (rate_keeps_ratings_in_range int_literal float_literal Run.calm
           (Some 1) (Some "3") (Some "4.5") Site.catalog).
  exact catalog_ratings_in_range.
Defined.

Lemma rate_touches_one_pair_run :
  let out := Run.post_rate Run.calm "1" "2.5" Site.catalog in
  filter (fun r => negb (is_pair 1 1 r)) (Db.ratings (snd out)) =
  filter (fun r => negb (is_pair 1 1 r)) (Db.ratings Site.catalog) /\
  NoDup (map Rating.rating_id (Db.ratings (snd out))).
Proof.
  apply (rate_touches_one_pair int_literal float_literal Run.calm 1 "1"
           (Some "2.5") 1 Site.catalog);
    [reflexivity|no_dup].
Defined.

Lemma rate_keeps_pairs_unique_run :
  (length (rows_of_pair 1 7
             (snd (Run.post_rate Run.calm "7" "2.5" Run.written))) <= 1)%nat.
Proof.
  apply (rate_keeps_pairs_unique int_literal float_literal Run.calm (Some 1)
           (Some "7") (Some "2.5") Run.written).
  intros u m. unfold rows_of_pair, Run.written.
  cbn [Db.ratings filter].
  destruct (is_pair u m _); simpl; lia.
Defined.

(** Alice rates movie 3, which bob rated 5: two rows, mean 4.75. *)
Lemma api_movie_after_rate_run :
  let out := Run.post_rate Run.calm "3" "4.5" Site.catalog in
  exists body,
    api_movie 3 (snd out) = ApiMovie body /\
    json_movie_id body = 3 /\
    json_ratings_count body = Some (recomputed_count 3 (snd out)) /\
    1 <= recomputed_count 3 (snd out) /\
    (json_avg_rating body == recomputed_avg 3 (snd out))%Q /\
    (0 <= json_avg_rating body /\ json_avg_rating body <= 5)%Q.
Proof.
  apply (api_movie_after_rate int_literal float_literal Run.calm (Some 1)
           "3" (Some "4.5") 3 Site.catalog);
    [reflexivity|reflexivity|exact catalog_ratings_in_range
    |unfold movie_exists; simpl; tauto|reflexivity].
Defined.

Lemma fallback_shows_the_top_unrated_run :
  exists ms,
    recommendations int_literal Run.proc_down (Some 1) None Site.catalog =
    (Render "recommendations.html" (map (fallback_rec 1) ms), Site.catalog) /\
    (forall m m', In m ms -> In m' (Db.movies Site.catalog) ->
                  ~ In (Movie.movie_id m') (ratedMovieIds 1 Site.catalog) ->
                  ~ In m' ms -> by_avg_rating_desc m m' = true) /\
    ((length (filter (unseen (ratedMovieIds 1 Site.catalog))
                     (Db.movies Site.catalog)) <= Z.to_nat 20)%nat ->
     Permutation ms (filter (unseen (ratedMovieIds 1 Site.catalog))
                            (Db.movies Site.catalog))).
Proof.
  apply (fallback_shows_the_top_unrated int_literal Run.proc_down 1 None 20
           Site.catalog);
    [reflexivity|reflexivity|lia].
Defined.

Lemma site_users_unique : users_unique String.eqb (Db.users Site.catalog).
Proof. repeat constructor. Qed.

(** Carol registers while the procedure is down. *)
Lemma register_fallback_keeps_users_unique_run :
  let out :=
    register String.eqb Site.plain_hash POST (Some "carol")
             (Some "carol@example.org") (Some "pw") "salt" 9 Raised
             session_clear Site.catalog in
  users_unique String.eqb (Db.users (snd out)) /\
  fst (fst out) <> Crash "IntegrityError" /\
  map User.user_id (Db.users (snd out)) = [1; 2; 3].
Proof.
  pose proof (register_fallback_keeps_users_unique String.eqb Site.plain_hash
                POST (Some "carol") (Some "carol@example.org") (Some "pw")
                "salt" 9 session_clear Site.catalog site_users_unique)
    as (Hu & Hc & _).
  split; [exact Hu|]. split; [exact Hc|reflexivity].
Defined.

Lemma register_then_login_run :
  let reg :=
    register String.eqb Site.plain_hash POST (Some "carol")
             (Some "carol@example.org") (Some "pw") "salt" 9 Raised
             session_clear Site.catalog in
  let out :=
    login String.eqb Site.plain_check POST (Some "carol") (Some "pw") Raised
          session_clear (snd reg) in
  fst (fst reg) = RedirectTo "login" /\
  fst out = RedirectTo "home" /\
  identity (snd out) = (Some 3, Some "carol") /\
  user_exists 3 (snd reg).
Proof.
  apply (register_then_login String.eqb Site.plain_hash Site.plain_check
           String.eqb_refl (fun _ p => String.eqb_refl p)
           "carol" "carol@example.org" "pw" "salt" 9 session_clear
           session_clear Site.catalog);
    try discriminate; try reflexivity; simpl; lia.
Defined.

(** Bob logs in by email and rates movie 2. *)
Lemma login_then_rate_run :
  let li :=
    login String.eqb Site.plain_check POST (Some "bob@example.org")
          (Some "hash:b0b") Raised session_clear Site.catalog in
  let out :=
    rate int_literal float_literal Run.calm (session_user_id (snd li))
         (Some "2") (Some "3.5") Site.catalog in
  exists u r,
    find (named String.eqb "bob@example.org") (Db.users Site.catalog) = Some u
    /\ Site.plain_check (User.password_hash u) "hash:b0b" = true /\
    fst out = JsonOk /\
    getRating (User.user_id u) 2 (snd out) = Some r /\
    Rating.user_id r = User.user_id u /\ Rating.movie_id r = 2 /\
    Rating.rating r = 7 # 2.
Proof.
  apply (login_then_rate String.eqb Site.plain_check int_literal float_literal
           eq_refl eq_refl "bob@example.org" "hash:b0b" session_clear
           Site.catalog Run.calm "2" "3.5" 2 (7 # 2));
    [reflexivity|reflexivity|reflexivity|in_0_5
    |unfold movie_exists; simpl; tauto].
Defined.

(** ** Rows of the recommendation page *)

Lemma select_recommendations_in (uid : Z) (db : Db.t) (r : rec) :
  In r (select_recommendations uid db) ->
  rec_user_id r = uid /\
  exists m, In m (Db.movies db) /\ Movie.movie_id m = rec_movie_id r /\
            rec_title r = Movie.title m.
Proof.
  unfold select_recommendations, join_movies. rewrite in_map_iff.
  intros ([c m] & <- & H). apply in_order_by, filter_In in H.
  destruct H as [H Hu]. simpl in Hu. apply Z.eqb_eq in Hu.
  apply in_flat_map in H. destruct H as (c' & _ & H).
  apply in_map_iff in H. destruct H as (m' & [= <- <-] & Hm).
  apply filter_In in Hm. destruct Hm as [Hm _].
  simpl. split; [exact Hu|]. eauto.
Qed.

Section PageRows.
Variable py_int : string -> option Z.

(** X21. Every row [/recommendations] renders, in either branch,
    carries the id of the session user and the id and title of a
    [movies] row of the store the request leaves. *)
Theorem recommendations_rows_are_own_and_real (env : Env) (user : Z)
    (limit : option string) (db : Db.t) :
  let out := recommendations py_int env (Some user) limit db in
  Forall (fun r =>
            rec_user_id r = user /\
            exists m, In m (Db.movies (snd out)) /\
                      Movie.movie_id m = rec_movie_id r /\
                      rec_title r = Movie.title m)
         (rendered (fst out)).
Proof.
  unfold recommendations.
  destruct (match limit with None => Some 20 | Some s => py_int s end)
    as [n|]; [|simpl; auto].
  destruct (proc_fails env).
  - destruct (movies_fallback user n db) as [ms|] eqn:F; [|simpl; auto].
    simpl. apply Forall_forall. intros r Hr.
    apply in_map_iff in Hr. destruct Hr as (m & <- & Hm). simpl.
    split; [reflexivity|]. exists m.
    destruct (movies_fallback_unseen _ _ _ _ _ F Hm) as [Hin _]. auto.
  - cbv zeta. cbn [fst snd rendered]. apply Forall_forall. intros r Hr.
    now apply select_recommendations_in in Hr.
Qed.

End PageRows.
